(** * A todo list in plain JavaScript: model, view helpers and controller

    Shallow embedding of
      - [src/view/html-util.js]   ([escapeSpecialChars], [element]),
      - [view/TodoItemView.js] and [view/TodoListView.js],
      - [EventEmitter.js],
      - [model/TodoItemModel.js] and [model/TodoListModel.js],
      - [src/app.js]              (the [App] controller),
    followed by the properties proved about them.

    Conventions of the embedding.
      - A JavaScript string is a [string]; [.length] is [String.length]
        (zero exactly for the empty string).
      - Objects live in a store and are named by references ([loc]); two
        references are the same object exactly when they are equal.  Entities
        ([TodoItemModel]) and arrays have a store each.
      - A [Map] is a [gmap]; a [Set] of functions is the list of its members
        in insertion order, without repetition (the order [forEach] visits).
      - A function object is named by a reference ([fnref]).  Calling a
        listener is recorded in the [trace] of the state, as is every call of
        [emit]; and for every notification the state records in [seen] the
        sequence the container held while the listeners were called, which
        is what a listener reads with [getTodoItems()].  The trace and
        [seen] are the only parts of the state that are not in the
        source. *)

From Stdlib Require Import ZArith Ascii String.
From stdpp Require Import gmap strings list fin_maps pretty.


(* ===================================================================== *)
(** ** html-util.js                                                       *)
(* ===================================================================== *)

Module HtmlUtil.

(** The characters the source writes as string literals. *)
Definition dquote : ascii := "034"%char.
Definition squote : ascii := "039"%char.
Definition amp : ascii := "&"%char.
Definition lt : ascii := "<"%char.
Definition gt : ascii := ">"%char.
Definition newline : ascii := "010"%char.

Definition str1 (c : ascii) : string := String c EmptyString.

Definition amp_entity : string := "&amp;".
Definition lt_entity : string := "&lt;".
Definition gt_entity : string := "&gt;".
Definition quot_entity : string := "&quot;".
Definition apos_entity : string := "&#039;".

(** [str.replace(/c/g, rep)] for a pattern that is one literal character:
    every occurrence of [c], left to right, becomes [rep]. *)
Fixpoint replace_all (c : ascii) (rep : string) (str : string) : string :=
  match str with
  | EmptyString => EmptyString
  | String a rest =>
      if Ascii.eqb a c
      then rep +:+ replace_all c rep rest
      else String a (replace_all c rep rest)
  end.

(** [escapeSpecialChars(str)]: the five passes, in the order of the source. *)
Definition escapeSpecialChars (str : string) : string :=
  replace_all squote apos_entity
    (replace_all dquote quot_entity
      (replace_all gt gt_entity
        (replace_all lt lt_entity
          (replace_all amp amp_entity str)))).

(** The values a template can interpolate.  A number is an integer of
    absolute value below 10^21 (the numbers this program makes are ids and
    counts), which [String(...)] prints in decimal digits; an object is
    given by the string its conversion with [String(...)] yields. *)
Inductive value : Type :=
  | VUndefined
  | VNull
  | VBoolean (b : bool)
  | VNumber (n : Z)
  | VString (s : string)
  | VObject (toString : string).

Inductive jstype : Type :=
  | TUndefined | TObject | TBoolean | TNumber | TString.

Definition typeof (v : value) : jstype :=
  match v with
  | VUndefined => TUndefined
  | VNull => TObject
  | VBoolean _ => TBoolean
  | VNumber _ => TNumber
  | VString _ => TString
  | VObject _ => TObject
  end.

Global Instance jstype_eq_dec : EqDecision jstype.
Proof. solve_decision. Defined.

(** [typeof value === "string"]. *)
Definition is_string (v : value) : bool :=
  bool_decide (typeof v = TString).

(** [String(value)]. *)
Definition js_String (v : value) : string :=
  match v with
  | VUndefined => "undefined"
  | VNull => "null"
  | VBoolean true => "true"
  | VBoolean false => "false"
  | VNumber n => pretty n
  | VString s => s
  | VObject s => s
  end.

(** [values[i]]: [undefined] when [i] is out of range. *)
Definition values_at (values : list value) (i : nat) : value :=
  default VUndefined (values !! i).

(** The characters of a value whose [typeof] is ["string"]. *)
Definition string_chars (v : value) : string :=
  match v with VString s => s | _ => EmptyString end.

(** The callback of the [reduce] in [element]. *)
Definition element_step (values : list value)
    (result : string) (str : string) (i : nat) : string :=
  let value := values_at values (i - 1) in
  if is_string value
  then result +:+ escapeSpecialChars (string_chars value) +:+ str
  else result +:+ js_String value +:+ str.

(** [arr.reduce(f)] without an initial value, on the elements from index
    [i] on, the accumulator being [acc]. *)
Fixpoint reduce_from (f : string → string → nat → string)
    (acc : string) (i : nat) (arr : list string) : string :=
  match arr with
  | [] => acc
  | str :: rest => reduce_from f (f acc str i) (S i) rest
  end.

(** [arr.reduce(f)]: the first element is the initial accumulator and the
    callback starts at index 1; an empty array is a [TypeError] ([None]). *)
Definition reduce (f : string → string → nat → string)
    (arr : list string) : option string :=
  match arr with
  | [] => None
  | first :: rest => Some (reduce_from f first 1 rest)
  end.

(** The [htmlString] that [element(strings, ...values)] hands to
    [htmlToElement]. *)
Definition element (strings : list string) (values : list value)
  : option string :=
  reduce (element_step values) strings.

End HtmlUtil.

(* ===================================================================== *)
(** ** EventEmitter.js                                                    *)
(* ===================================================================== *)

(** References: object identity ([===] on objects and functions). *)
Abbreviation loc := positive.
Abbreviation fnref := positive.

(** What the trace records: a call of [emit(type)], and a call of a
    listener by [emit]. *)
Inductive event : Type :=
  | EvEmit (type : string)
  | EvCall (listener : fnref).

Global Instance event_eq_dec : EqDecision event.
Proof. solve_decision. Defined.

Module EventEmitter.

(** [Set.prototype.add]: a member is not added again. *)
Definition set_add (x : fnref) (s : list fnref) : list fnref :=
  if decide (x ∈ s) then s else s ++ [x].

(** [Set.prototype.delete]. *)
Definition set_delete (x : fnref) (s : list fnref) : list fnref :=
  filter (λ y, y ≠ x) s.

(** [addEventListener(type, listener)], on the [#listeners] map. *)
Definition addEventListener (type : string) (listener : fnref)
    (listeners : gmap string (list fnref)) : gmap string (list fnref) :=
  let listeners1 :=
    if decide (is_Some (listeners !! type)) then listeners
    else <[type := []]> listeners in
  match listeners1 !! type with
  | Some listenerSet => <[type := set_add listener listenerSet]> listeners1
  | None => listeners1
  end.

(** [emit(type)]: the events it performs, in order. *)
Definition emit (type : string)
    (listeners : gmap string (list fnref)) : list event :=
  EvEmit type ::
  match listeners !! type with
  | None => []
  | Some listenerSet => (λ listener, EvCall listener) <$> listenerSet
  end.

(** [removeEventListener(type, listener)]: the [forEach] deletes the
    members identical to [listener] as it meets them. *)
Definition removeEventListener (type : string) (listener : fnref)
    (listeners : gmap string (list fnref)) : gmap string (list fnref) :=
  match listeners !! type with
  | None => listeners
  | Some listenerSet =>
      <[type := foldl (λ set ownListener,
                         if decide (ownListener = listener)
                         then set_delete listener set else set)
                      listenerSet listenerSet]> listeners
  end.

End EventEmitter.

(* ===================================================================== *)
(** ** TodoItemModel.js                                                   *)
(* ===================================================================== *)

Record TodoItemModel : Type := {
  id : Z;
  title : string;
  completed : bool;
}.

(** [isEmptyTitle()]. *)
Definition isEmptyTitle (this : TodoItemModel) : bool :=
  Nat.eqb (String.length (title this)) 0.

(** [n + 1] on the numbers the counter [todoIdx] takes: the integers from
    0 to 2^53, all of them exact; at 2^53 the sum rounds back to 2^53. *)
Definition js_succ (n : Z) : Z :=
  if decide (n < 2 ^ 53)%Z then (n + 1)%Z else n.

(* ===================================================================== *)
(** ** The state of the program                                           *)
(* ===================================================================== *)

Record State : Type := {
  todoIdx : Z;                              (* [let todoIdx = 0] *)
  objs : gmap loc TodoItemModel;            (* the entity objects *)
  arrs : gmap loc (list loc);               (* the array objects *)
  items : loc;                              (* [TodoListModel.#items] *)
  listeners : gmap string (list fnref);     (* [EventEmitter.#listeners] *)
  trace : list event;
  seen : list (list loc);                   (* the sequence at each notification *)
}.

Definition set_todoIdx (n : Z) (st : State) : State :=
  {| todoIdx := n; objs := objs st; arrs := arrs st; items := items st;
     listeners := listeners st; trace := trace st; seen := seen st |}.
Definition set_objs (o : gmap loc TodoItemModel) (st : State) : State :=
  {| todoIdx := todoIdx st; objs := o; arrs := arrs st; items := items st;
     listeners := listeners st; trace := trace st; seen := seen st |}.
Definition set_arrs (a : gmap loc (list loc)) (st : State) : State :=
  {| todoIdx := todoIdx st; objs := objs st; arrs := a; items := items st;
     listeners := listeners st; trace := trace st; seen := seen st |}.
Definition set_items (r : loc) (st : State) : State :=
  {| todoIdx := todoIdx st; objs := objs st; arrs := arrs st; items := r;
     listeners := listeners st; trace := trace st; seen := seen st |}.
Definition set_listeners (l : gmap string (list fnref)) (st : State) : State :=
  {| todoIdx := todoIdx st; objs := objs st; arrs := arrs st; items := items st;
     listeners := l; trace := trace st; seen := seen st |}.
Definition set_trace (t : list event) (st : State) : State :=
  {| todoIdx := todoIdx st; objs := objs st; arrs := arrs st; items := items st;
     listeners := listeners st; trace := t; seen := seen st |}.
Definition set_seen (v : list (list loc)) (st : State) : State :=
  {| todoIdx := todoIdx st; objs := objs st; arrs := arrs st; items := items st;
     listeners := listeners st; trace := trace st; seen := v |}.

(** [new TodoItemModel({ title, completed })]: the new object and the state
    after the constructor. *)
Definition new_TodoItemModel (title : string) (completed : bool)
    (st : State) : loc * State :=
  let this := fresh (dom (objs st)) in
  let this_id := todoIdx st in
  (this,
   set_objs (<[this := {| id := this_id; title := title;
                          completed := completed |}]> (objs st))
     (set_todoIdx (js_succ (todoIdx st)) st)).

(** The elements of the array [r]. *)
Definition array_get (r : loc) (st : State) : list loc :=
  default [] (arrs st !! r).

(** [r.push(x)]. *)
Definition array_push (r : loc) (x : loc) (st : State) : State :=
  set_arrs (alter (λ a, a ++ [x]) r (arrs st)) st.

(** [todo.id], for the object at [l]. *)
Definition id_of (st : State) (l : loc) : option Z :=
  id <$> objs st !! l.

(* ===================================================================== *)
(** ** TodoListModel.js                                                   *)
(* ===================================================================== *)

Module TodoListModel.

(** [new TodoListModel(items)] on a state without a container yet: the
    array passed in becomes [#items] itself, and [#listeners] is a new
    empty map. *)
Definition constructor (items_arg : loc) (st : State) : State :=
  set_listeners ∅ (set_items items_arg st).

(** [getTotalCount()]. *)
Definition getTotalCount (st : State) : nat :=
  length (array_get (items st) st).

(** [getTodoItems()]: the array [#items] itself. *)
Definition getTodoItems (st : State) : loc :=
  items st.

(** [onChange(listener)]. *)
Definition onChange (listener : fnref) (st : State) : State :=
  set_listeners
    (EventEmitter.addEventListener "change" listener (listeners st)) st.

(** [offChange(listener)]. *)
Definition offChange (listener : fnref) (st : State) : State :=
  set_listeners
    (EventEmitter.removeEventListener "change" listener (listeners st)) st.

(** [emitChange()]: the calls [emit("change")] makes go to the trace, and
    the sequence [#items] holds during these calls goes to [seen]. *)
Definition emitChange (st : State) : State :=
  set_seen (seen st ++ [array_get (items st) st])
    (set_trace (trace st ++ EventEmitter.emit "change" (listeners st)) st).

(** [addTodo(todoItem)].  A reference always names an object; the last
    branch is there for totality only. *)
Definition addTodo (todoItem : loc) (st : State) : State :=
  match objs st !! todoItem with
  | Some this =>
      if isEmptyTitle this then st
      else emitChange (array_push (items st) todoItem st)
  | None => st
  end.

(** [todoItem.completed = completed]. *)
Definition set_completed (todoItem : loc) (c : bool) (st : State) : State :=
  set_objs
    (alter (λ o, {| id := id o; title := title o; completed := c |})
           todoItem (objs st)) st.

(** [updateTodo({ id, completed })]: [find] yields the first element
    with [todo.id === id]. *)
Definition updateTodo (i : Z) (c : bool) (st : State) : State :=
  match list_find (λ todo, id_of st todo = Some i)
                  (array_get (items st) st) with
  | None => st
  | Some (_, todoItem) => emitChange (set_completed todoItem c st)
  end.

(** [deleteTodo({ id })]: [filter] keeps the elements with
    [todo.id !== id] in a new array, which replaces [#items]. *)
Definition deleteTodo (i : Z) (st : State) : State :=
  let kept :=
    filter (λ todo, id_of st todo ≠ Some i) (array_get (items st) st) in
  let fresh_array := fresh (dom (arrs st)) in
  emitChange (set_items fresh_array
                (set_arrs (<[fresh_array := kept]> (arrs st)) st)).

End TodoListModel.

(* ===================================================================== *)
(** ** TodoItemView.js and TodoListView.js                                *)
(* ===================================================================== *)

(** What the listeners wired on an element send when they fire. *)
Inductive action : Type :=
  | ADD_TODO (title : string)
  | UPDATE_TODO (i : Z) (c : bool)
  | DELETE_TODO (i : Z).

Module TodoItemView.
Import HtmlUtil.

Fixpoint spaces (n : nat) : string :=
  match n with
  | O => EmptyString
  | S k => String " " (spaces k)
  end.

(** A line break of the template followed by its indentation. *)
Definition line (indent : nat) : string :=
  String newline (spaces indent).

(** [s] between double quotes. *)
Definition quoted (s : string) : string :=
  str1 dquote +:+ s +:+ str1 dquote.

Definition input_checkbox (attrs : string) : string :=
  "<li><input type=" +:+ quoted "checkbox" +:+ " class="
    +:+ quoted "checkbox" +:+ attrs +:+ ">".

Definition button_and_close : string :=
  "<button class=" +:+ quoted "delete" +:+ ">x</button>"
    +:+ line 32 +:+ "</li>".

(** The static parts of the two template literals. *)
Definition completed_strings : list string :=
  [ input_checkbox " checked" +:+ line 36 +:+ "<s>";
    "</s>" +:+ line 36 +:+ button_and_close ].

Definition active_strings : list string :=
  [ input_checkbox EmptyString +:+ line 36;
    line 36 +:+ button_and_close ].

(** The element of one item: its markup, and what its checkbox
    ([change]) and its delete button ([click]) send when they fire while
    the entity is as it was when the element was made (every notification
    makes the controller render the list anew from the entities as they
    are then). *)
Record ItemElement : Type := {
  html : string;
  on_change : action;
  on_click : action;
}.

(** [createElement(todoItem, { onUpdateTodo, onDeleteTodo })]. *)
Definition createElement (todoItem : TodoItemModel) : option ItemElement :=
  markup ←
    (if completed todoItem
     then element completed_strings [VString (title todoItem)]
     else element active_strings [VString (title todoItem)]);
  Some {| html := markup;
          on_change := UPDATE_TODO (id todoItem) (negb (completed todoItem));
          on_click := DELETE_TODO (id todoItem) |}.

End TodoItemView.

Module TodoListView.

(** The [<ul>] and the children appended to it, in order. *)
Record ListElement : Type := {
  html : string;
  children : list TodoItemView.ItemElement;
}.

(** [createElement(todoItems, { onUpdateTodo, onDeleteTodo })]. *)
Definition createElement (todoItems : list TodoItemModel)
  : option ListElement :=
  todoListElement ← HtmlUtil.element ["<ul></ul>"] [];
  kids ← mapM TodoItemView.createElement todoItems;
  Some {| html := todoListElement; children := kids |}.

End TodoListView.

(* ===================================================================== *)
(** ** app.js                                                             *)
(* ===================================================================== *)

Module App.

(** The function objects held by the instance fields [#handleChange] and
    [#handleSubmit]: made once, when the [App] is constructed. *)
Record App : Type := {
  handleChange_fn : fnref;
  handleSubmit_fn : fnref;
}.

(** The program state together with the two parts of the page the
    controller writes: the [submit] listeners of [formElement] and the
    text of [formInputElement]. *)
Record AppState : Type := {
  world : State;
  form_submit : list fnref;
  input_value : string;
}.

Definition on_world (f : State → State) (s : AppState) : AppState :=
  {| world := f (world s); form_submit := form_submit s;
     input_value := input_value s |}.

(** The state after the module has been loaded ([todoIdx = 0]) and
    [#todoListModel = new TodoListModel([])] has run. *)
Definition initial_state : State :=
  let empty_array : loc := 1%positive in
  TodoListModel.constructor empty_array
    {| todoIdx := 0; objs := ∅; arrs := {[ empty_array := [] ]};
       items := empty_array; listeners := ∅; trace := []; seen := [] |}.

Definition initial : AppState :=
  {| world := initial_state; form_submit := []; input_value := EmptyString |}.

(** [#handleAdd(title)]. *)
Definition handleAdd (title : string) (st : State) : State :=
  let (todoItem, st1) := new_TodoItemModel title false st in
  TodoListModel.addTodo todoItem st1.

(** [#handleUpdate({ id, completed })]. *)
Definition handleUpdate (i : Z) (c : bool) (st : State) : State :=
  TodoListModel.updateTodo i c st.

(** [#handleDelete({ id })]. *)
Definition handleDelete (i : Z) (st : State) : State :=
  TodoListModel.deleteTodo i st.

(** What the listeners wired by the views do when they fire. *)
Definition dispatch (a : action) (st : State) : State :=
  match a with
  | ADD_TODO title => handleAdd title st
  | UPDATE_TODO i c => handleUpdate i c st
  | DELETE_TODO i => handleDelete i st
  end.

(** [#handleSubmit(event)]. *)
Definition handleSubmit (s : AppState) : AppState :=
  {| world := handleAdd (input_value s) (world s);
     form_submit := form_submit s;
     input_value := EmptyString |}.

(** The entity objects of an array, in the order of the array. *)
Definition read_array (st : State) (r : loc) : list TodoItemModel :=
  omap (λ l, objs st !! l) (array_get r st).

(** [#handleChange()]: the element it hands to [render], and the number
    it writes after the label of the counter. *)
Definition handleChange (st : State)
  : option TodoListView.ListElement * nat :=
  let todoItems := TodoListModel.getTodoItems st in
  (TodoListView.createElement (read_array st todoItems),
   TodoListModel.getTotalCount st).

(** [mount()].  [formElement.addEventListener] does not register a
    listener that is registered already. *)
Definition mount (app : App) (s : AppState) : AppState :=
  {| world := TodoListModel.onChange (handleChange_fn app) (world s);
     form_submit := EventEmitter.set_add (handleSubmit_fn app) (form_submit s);
     input_value := input_value s |}.

(** [unmount()]. *)
Definition unmount (app : App) (s : AppState) : AppState :=
  {| world := TodoListModel.offChange (handleChange_fn app) (world s);
     form_submit :=
       EventEmitter.set_delete (handleSubmit_fn app) (form_submit s);
     input_value := input_value s |}.

End App.

(* ===================================================================== *)
(** ** Definitions used to state the properties                           *)
(* ===================================================================== *)

Module Escaping.
Import HtmlUtil.

(** The entity the specification gives for each of the five characters;
    any other character stands for itself. *)
Definition entity_of (a : ascii) : string :=
  if Ascii.eqb a amp then amp_entity
  else if Ascii.eqb a lt then lt_entity
  else if Ascii.eqb a gt then gt_entity
  else if Ascii.eqb a dquote then quot_entity
  else if Ascii.eqb a squote then apos_entity
  else str1 a.

(** Character by character replacement, as the specification words it. *)
Fixpoint escape_each (str : string) : string :=
  match str with
  | EmptyString => EmptyString
  | String a rest => entity_of a +:+ escape_each rest
  end.

(** The characters that can open or close a tag or an attribute value. *)
Definition markup_char (a : ascii) : bool :=
  Ascii.eqb a lt || Ascii.eqb a gt || Ascii.eqb a dquote || Ascii.eqb a squote.

Fixpoint string_forallb (p : ascii → bool) (s : string) : bool :=
  match s with
  | EmptyString => true
  | String a rest => p a && string_forallb p rest
  end.

(** [s.includes(pat)]. *)
Fixpoint contains (pat s : string) : bool :=
  String.prefix pat s ||
  match s with
  | EmptyString => false
  | String _ rest => contains pat rest
  end.

(** What [element] puts in the place of a value. *)
Definition inserted_text (v : value) : string :=
  match v with
  | VString s => escapeSpecialChars s
  | _ => js_String v
  end.

Definition script_title : string := "<script>alert(1)</script>".

(** The five characters [escapeSpecialChars] looks for. *)
Definition special_char (a : ascii) : bool :=
  Ascii.eqb a amp || markup_char a.

(** How often the character [c] occurs in [s]. *)
Fixpoint count_char (c : ascii) (s : string) : nat :=
  match s with
  | EmptyString => 0
  | String a rest => (if Ascii.eqb a c then 1 else 0) + count_char c rest
  end.

(** A template filled in from left to right: before each static part
    after the first comes the text of the value of its place. *)
Fixpoint fill_from (values : list value) (i : nat) (rest : list string)
  : string :=
  match rest with
  | [] => EmptyString
  | str :: rest' =>
      inserted_text (values_at values i) +:+ str
        +:+ fill_from values (S i) rest'
  end.

End Escaping.

Module Props.

(** The listeners registered for ["change"], in the order they are
    called. *)
Definition change_listeners (st : State) : list fnref :=
  default [] (listeners st !! "change").

(** What one notification adds to the trace. *)
Definition one_change (st : State) : list event :=
  EvEmit "change" :: ((λ l, EvCall l) <$> change_listeners st).

(** How many ["change"] notifications a list of events holds, and how many
    calls of the listener [l]. *)
Definition notifications (evs : list event) : nat :=
  length (filter (λ e, e = EvEmit "change") evs).

Definition calls (l : fnref) (evs : list event) : nat :=
  length (filter (λ e, e = EvCall l) evs).

(** The events recorded between the state [st] and the later state
    [st']. *)
Definition events_since (st st' : State) : list event :=
  drop (length (trace st)) (trace st').

(** The sequences the listeners were shown between the state [st] and the
    later state [st'], one for each notification. *)
Definition seen_since (st st' : State) : list (list loc) :=
  drop (length (seen st)) (seen st').

(** A [Set] holds no member twice. *)
Definition sets_wf (ls : gmap string (list fnref)) : Prop :=
  ∀ type set, ls !! type = Some set → NoDup set.

(** [#items] names an array of the store. *)
Definition items_allocated (st : State) : Prop :=
  is_Some (arrs st !! items st).

Definition wf (st : State) : Prop :=
  items_allocated st ∧ sets_wf (listeners st).

(** The entities of the container, in order. *)
Definition item_refs (st : State) : list loc :=
  array_get (items st) st.

(** A run of the controller: the actions the wired listeners send, one
    after the other. *)
Definition run (acts : list action) (st : State) : State :=
  foldl (λ s a, App.dispatch a s) st acts.

Definition is_add (a : action) : bool :=
  match a with ADD_TODO _ => true | _ => false end.

(** The ids of the entities of the container, in order. *)
Definition item_ids (st : State) : list Z :=
  omap (id_of st) (item_refs st).

(** Every id in the store was handed out by the counter. *)
Definition ids_below (st : State) : Prop :=
  ∀ l i, id_of st l = Some i → (i < todoIdx st)%Z.

(** Two entities of the store with the same id are the same entity. *)
Definition ids_unique (st : State) : Prop :=
  ∀ l1 l2 i, id_of st l1 = Some i → id_of st l2 = Some i → l1 = l2.

(** The container holds entities of the store, each at most once. *)
Definition items_live (st : State) : Prop :=
  ∀ l, l ∈ item_refs st → is_Some (id_of st l).

Definition items_once (st : State) : Prop :=
  NoDup (item_refs st).

(** What holds of every state the program reaches. *)
Definition inv (st : State) : Prop :=
  items_allocated st ∧ ids_below st ∧ ids_unique st ∧
  items_live st ∧ items_once st.

(** A successful mutation: one that the container notifies. *)
Definition succeeds (a : action) (st : State) : Prop :=
  match a with
  | ADD_TODO title => String.length title ≠ 0
  | UPDATE_TODO i _ => ∃ todo, todo ∈ item_refs st ∧ id_of st todo = Some i
  | DELETE_TODO _ => True
  end.

End Props.

(* ===================================================================== *)
(** ** Properties of html-util.js and of the views                        *)
(* ===================================================================== *)

Section HtmlUtilFacts.
Import HtmlUtil Escaping.

Lemma string_app_cons x (a b : string) :
  String x a +:+ b = String x (a +:+ b).
Proof. reflexivity. Qed.

Lemma string_app_nil (b : string) : EmptyString +:+ b = b.
Proof. reflexivity. Qed.

Lemma string_app_assoc (a b c : string) : (a +:+ b) +:+ c = a +:+ (b +:+ c).
Proof.
  induction a as [|x a IH]; [done |].
  by rewrite !string_app_cons, IH.
Qed.

Lemma replace_all_app c rep (s1 s2 : string) :
  replace_all c rep (s1 +:+ s2) = replace_all c rep s1 +:+ replace_all c rep s2.
Proof.
  induction s1 as [|a s1 IH]; [done |].
  rewrite string_app_cons. simpl.
  destruct (Ascii.eqb a c); rewrite IH; [|done].
  by rewrite string_app_assoc.
Qed.

(** The five passes of the source amount to one pass that maps every
    character to its entity. *)
Lemma escapeSpecialChars_cons a (s : string) :
  escapeSpecialChars (String a s) = entity_of a +:+ escapeSpecialChars s.
Proof.
  unfold escapeSpecialChars, entity_of.
  cbn [replace_all].
  destruct (Ascii.eqb a amp) eqn:E1.
  { unfold amp_entity. rewrite !replace_all_app. reflexivity. }
  cbn [replace_all].
  destruct (Ascii.eqb a lt) eqn:E2.
  { unfold lt_entity. rewrite !replace_all_app. reflexivity. }
  cbn [replace_all].
  destruct (Ascii.eqb a gt) eqn:E3.
  { unfold gt_entity. rewrite !replace_all_app. reflexivity. }
  cbn [replace_all].
  destruct (Ascii.eqb a dquote) eqn:E4.
  { unfold quot_entity. rewrite !replace_all_app. reflexivity. }
  cbn [replace_all].
  destruct (Ascii.eqb a squote) eqn:E5; reflexivity.
Qed.

Lemma escapeSpecialChars_each (s : string) :
  escapeSpecialChars s = escape_each s.
Proof.
  induction s as [|a s IH]; [reflexivity |].
  rewrite escapeSpecialChars_cons. simpl. by rewrite IH.
Qed.

Lemma string_forallb_app p (s1 s2 : string) :
  string_forallb p (s1 +:+ s2) = string_forallb p s1 && string_forallb p s2.
Proof.
  induction s1 as [|a s1 IH]; [done |].
  rewrite string_app_cons. simpl.
  by rewrite IH, andb_assoc.
Qed.

Lemma entity_of_no_markup a :
  string_forallb (λ c, negb (markup_char c)) (entity_of a) = true.
Proof.
  unfold entity_of.
  destruct (Ascii.eqb a amp) eqn:E1; [reflexivity |].
  destruct (Ascii.eqb a lt) eqn:E2; [reflexivity |].
  destruct (Ascii.eqb a gt) eqn:E3; [reflexivity |].
  destruct (Ascii.eqb a dquote) eqn:E4; [reflexivity |].
  destruct (Ascii.eqb a squote) eqn:E5; [reflexivity |].
  simpl. unfold markup_char. by rewrite E2, E3, E4, E5.
Qed.

Lemma escapeSpecialChars_no_markup (s : string) :
  string_forallb (λ c, negb (markup_char c)) (escapeSpecialChars s) = true.
Proof.
  rewrite escapeSpecialChars_each.
  induction s as [|a s IH]; [reflexivity |].
  simpl. by rewrite string_forallb_app, entity_of_no_markup, IH.
Qed.

Lemma element_step_inserted values result str i :
  element_step values result str i
  = result +:+ inserted_text (values_at values (i - 1)) +:+ str.
Proof. unfold element_step. by destruct (values_at values (i - 1)). Qed.

Lemma reduce_from_snoc f acc i (arr : list string) str :
  reduce_from f acc i (arr ++ [str])
  = f (reduce_from f acc i arr) str (i + length arr).
Proof.
  revert acc i. induction arr as [|x arr IH]; intros acc i; simpl.
  - by rewrite Nat.add_0_r.
  - rewrite IH. by rewrite Nat.add_succ_r.
Qed.

(** One more static part at the end of a template: the output so far, the
    text for the value in the last place, and that part. *)
Lemma element_snoc (strings : list string) str values :
  strings ≠ [] →
  element (strings ++ [str]) values
  = result ← element strings values;
    Some (result +:+ inserted_text (values_at values (length strings - 1))
                 +:+ str).
Proof.
  destruct strings as [|first rest]; [done | intros _].
  unfold element. simpl. rewrite reduce_from_snoc, element_step_inserted.
  by repeat f_equal.
Qed.

Lemma element_nonempty (strings : list string) values :
  strings ≠ [] → is_Some (element strings values).
Proof. destruct strings; [done | by eexists]. Qed.

End HtmlUtilFacts.

Section ElementTheorems.
Import HtmlUtil Escaping.

(** C1.  Every string value that [element] interpolates is inserted as
    [escapeSpecialChars] of it, and [escapeSpecialChars] replaces each
    occurrence of [&], [<], [>], the double quote and the single quote by
    its entity ([&amp;], [&lt;], [&gt;], [&quot;], [&#039;]) and keeps every
    other character, so that the inserted text holds none of [<], [>] and
    the two quotes.  The item view inserts the title of the entity, a
    string, this way; for the title [<script>alert(1)</script>] its markup
    holds [&lt;script&gt;alert(1)&lt;/script&gt;] and nowhere the text
    [<script>]. *)
Theorem C1_string_values_are_escaped :
  (∀ s : string, escapeSpecialChars s = escape_each s) ∧
  (∀ s : string,
     string_forallb (λ c, negb (markup_char c)) (escapeSpecialChars s) = true) ∧
  (∀ (strings : list string) (str : string) (values : list value) (s : string),
     strings ≠ [] →
     values_at values (length strings - 1) = VString s →
     element (strings ++ [str]) values
     = result ← element strings values;
       Some (result +:+ escapeSpecialChars s +:+ str)) ∧
  (∀ todoItem : TodoItemModel,
     ∃ pre post : string,
       (if completed todoItem
        then TodoItemView.completed_strings
        else TodoItemView.active_strings) = [pre; post] ∧
       TodoItemView.html <$> TodoItemView.createElement todoItem
       = Some (pre +:+ escapeSpecialChars (title todoItem) +:+ post)) ∧
  (∀ (i : Z) (c : bool),
     ∃ el : TodoItemView.ItemElement,
       TodoItemView.createElement
         {| id := i; title := script_title; completed := c |} = Some el ∧
       contains "&lt;script&gt;alert(1)&lt;/script&gt;"
                (TodoItemView.html el) = true ∧
       contains "<script>" (TodoItemView.html el) = false).
Proof.
  split; [exact escapeSpecialChars_each |].
  split; [exact escapeSpecialChars_no_markup |].
  split.
  { intros strings str values s Hne Hv.
    rewrite element_snoc by done. by rewrite Hv. }
  split.
  - intros [i t c]. destruct c; simpl; eexists _, _; (split; [reflexivity |]).
    + unfold TodoItemView.createElement. simpl.
      by rewrite element_step_inserted.
    + unfold TodoItemView.createElement. simpl.
      by rewrite element_step_inserted.
  - intros i c. destruct c; eexists; (split; [reflexivity |]);
      split; vm_compute; reflexivity.
Qed.

(** C1 at a template with one value, the string [a<b]. *)
Lemma C1_string_values_are_escaped_witness :
  element (["<p>"] ++ ["</p>"]) [VString "a<b"]
  = result ← element ["<p>"] [VString "a<b"];
    Some (result +:+ escapeSpecialChars "a<b" +:+ "</p>").
Proof.
  destruct C1_string_values_are_escaped as (_ & _ & H & _).
  apply H; [done | reflexivity].
Defined.

(** C9.  [element] escapes a value exactly when its [typeof] is
    ["string"]: a string is inserted as [escapeSpecialChars] of it, and any
    other value (a number, a boolean, an object, [undefined], [null]) is
    inserted as [String(value)], unchanged, whatever characters that string
    holds.  An object whose string form is [<b>x</b>] is inserted as
    [<b>x</b>], where escaping would have given another text. *)
Theorem C9_only_strings_are_escaped :
  (∀ (strings : list string) (str : string) (values : list value),
     strings ≠ [] →
     let v := values_at values (length strings - 1) in
     element (strings ++ [str]) values
     = result ← element strings values;
       Some (result
             +:+ (if decide (typeof v = TString)
                  then escapeSpecialChars (string_chars v)
                  else js_String v)
             +:+ str)) ∧
  element ["<li>"; "</li>"] [VObject "<b>x</b>"] = Some "<li><b>x</b></li>" ∧
  escapeSpecialChars "<b>x</b>" = "&lt;b&gt;x&lt;/b&gt;" ∧
  element ["<li>"; "</li>"] [VString "<b>x</b>"]
  = Some "<li>&lt;b&gt;x&lt;/b&gt;</li>" ∧
  element ["<li>"; "</li>"] [VNumber 42] = Some "<li>42</li>" ∧
  element ["<li>"; "</li>"] [VBoolean true] = Some "<li>true</li>" ∧
  element ["<li>"; "</li>"] [VUndefined] = Some "<li>undefined</li>" ∧
  element ["<li>"; "</li>"] [] = Some "<li>undefined</li>".
Proof.
  split.
  { intros strings str values Hne v.
    rewrite element_snoc by done. fold v.
    destruct v; simpl; reflexivity. }
  repeat split; vm_compute; reflexivity.
Qed.

(** C9 at a template with one value that is not a string. *)
Lemma C9_only_strings_are_escaped_witness :
  element (["<li>"] ++ ["</li>"]) [VObject "<i>"]
  = Some ("<li>" +:+ "<i>" +:+ "</li>").
Proof.
  destruct C9_only_strings_are_escaped as (H & _).
  exact (H ["<li>"] "</li>" [VObject "<i>"] ltac:(done)).
Defined.

End ElementTheorems.

(* ===================================================================== *)
(** ** Properties of EventEmitter.js                                      *)
(* ===================================================================== *)

Section EmitterFacts.
Import EventEmitter Props.

Lemma set_add_elem x s : x ∈ set_add x s.
Proof.
  unfold set_add. case_decide; [done |].
  apply elem_of_app. right. by apply list_elem_of_singleton.
Qed.

Lemma set_add_NoDup x s : NoDup s → NoDup (set_add x s).
Proof.
  intros Hs. unfold set_add. case_decide; [done |].
  apply NoDup_app. split_and!; [done | | apply NoDup_singleton].
  intros y Hy Hy'. apply list_elem_of_singleton in Hy'. by subst.
Qed.

Lemma set_add_idem x s : set_add x (set_add x s) = set_add x s.
Proof.
  unfold set_add at 1. rewrite decide_True; [done | apply set_add_elem].
Qed.

Lemma set_delete_absent x s : x ∉ s → set_delete x s = s.
Proof.
  intros Hx. unfold set_delete.
  induction s as [|y s IH]; [done |].
  apply not_elem_of_cons in Hx as [Hxy Hx].
  rewrite filter_cons, decide_True by done. by rewrite IH.
Qed.

Lemma set_delete_idem x s : set_delete x (set_delete x s) = set_delete x s.
Proof.
  apply set_delete_absent. unfold set_delete.
  rewrite list_elem_of_filter. by intros [? _].
Qed.

Lemma set_delete_NoDup x s : NoDup s → NoDup (set_delete x s).
Proof. apply NoDup_filter. Qed.

(** The loop of [removeEventListener]: the set loses [listener] if the
    snapshot it walks holds it, and is left alone otherwise. *)
Lemma remove_loop listener (snapshot set : list fnref) :
  foldl (λ set ownListener,
           if decide (ownListener = listener)
           then set_delete listener set else set) set snapshot
  = if decide (listener ∈ snapshot) then set_delete listener set else set.
Proof.
  revert set. induction snapshot as [|y snapshot IH]; intros set;
    cbn [foldl].
  - destruct (decide (listener ∈ [])) as [Hin|_]; [|done].
    by apply not_elem_of_nil in Hin.
  - rewrite IH. destruct (decide (y = listener)) as [->|Hy].
    + destruct (decide (listener ∈ listener :: snapshot)) as [_|Hout].
      * case_decide; [apply set_delete_idem | done].
      * destruct Hout. apply list_elem_of_here.
    + destruct (decide (listener ∈ snapshot)) as [Hin|Hin];
        destruct (decide (listener ∈ y :: snapshot)) as [Hin'|Hin'];
        try done.
      * destruct Hin'. by apply list_elem_of_further.
      * apply elem_of_cons in Hin' as [->|?]; done.
Qed.

Lemma addEventListener_insert type listener (ls : gmap string (list fnref)) :
  addEventListener type listener ls
  = <[type := set_add listener (default [] (ls !! type))]> ls.
Proof.
  unfold addEventListener.
  destruct (ls !! type) as [set|] eqn:Hset.
  - rewrite decide_True by done. by rewrite Hset.
  - rewrite decide_False by (by intros [? ?]).
    rewrite lookup_insert_eq. by rewrite insert_insert_eq.
Qed.

Lemma removeEventListener_insert type listener
    (ls : gmap string (list fnref)) :
  removeEventListener type listener ls
  = match ls !! type with
    | None => ls
    | Some set => <[type := set_delete listener set]> ls
    end.
Proof.
  unfold removeEventListener.
  destruct (ls !! type) as [set|] eqn:Hset; [|done].
  rewrite remove_loop. case_decide; [done |].
  by rewrite set_delete_absent.
Qed.

Lemma addEventListener_idem type listener (ls : gmap string (list fnref)) :
  addEventListener type listener (addEventListener type listener ls)
  = addEventListener type listener ls.
Proof.
  rewrite !addEventListener_insert, lookup_insert_eq. simpl.
  by rewrite set_add_idem, insert_insert_eq.
Qed.

Lemma addEventListener_wf type listener (ls : gmap string (list fnref)) :
  sets_wf ls → sets_wf (addEventListener type listener ls).
Proof.
  intros Hwf type' set. rewrite addEventListener_insert.
  destruct (decide (type = type')) as [<-|Hne].
  - rewrite lookup_insert_eq. intros [= <-]. apply set_add_NoDup.
    destruct (ls !! type) as [set0|] eqn:E; simpl; [by eapply Hwf | constructor].
  - rewrite lookup_insert_ne by done. apply Hwf.
Qed.

Lemma removeEventListener_wf type listener (ls : gmap string (list fnref)) :
  sets_wf ls → sets_wf (removeEventListener type listener ls).
Proof.
  intros Hwf type' set. rewrite removeEventListener_insert.
  destruct (ls !! type) as [set0|] eqn:E; [|apply Hwf].
  destruct (decide (type = type')) as [<-|Hne].
  - rewrite lookup_insert_eq. intros [= <-]. apply set_delete_NoDup.
    by eapply Hwf.
  - rewrite lookup_insert_ne by done. apply Hwf.
Qed.

Lemma filter_eq_NoDup (x : fnref) (s : list fnref) :
  NoDup s →
  length (filter (λ y, y = x) s) = if decide (x ∈ s) then 1 else 0.
Proof.
  induction 1 as [|y s Hy Hs IH].
  { destruct (decide (x ∈ [])) as [Hin|_]; [|done].
    by apply not_elem_of_nil in Hin. }
  rewrite filter_cons. destruct (decide (y = x)) as [->|Hne].
  - destruct (decide (x ∈ x :: s)) as [_|Hout].
    + simpl. rewrite IH. by destruct (decide (x ∈ s)).
    + destruct Hout. apply list_elem_of_here.
  - rewrite IH.
    destruct (decide (x ∈ s)) as [Hin|Hin];
      destruct (decide (x ∈ y :: s)) as [Hin'|Hin']; try done.
    + destruct Hin'. by apply list_elem_of_further.
    + apply elem_of_cons in Hin' as [->|?]; done.
Qed.

Lemma calls_EvCall l (s : list fnref) :
  calls l ((λ x, EvCall x) <$> s) = length (filter (λ y, y = l) s).
Proof.
  unfold calls. induction s as [|y s IH]; [done |].
  rewrite fmap_cons, !filter_cons.
  destruct (decide (y = l)) as [->|Hne].
  - rewrite decide_True by done. simpl. by rewrite IH.
  - rewrite decide_False by congruence. done.
Qed.

Lemma notifications_EvCall (s : list fnref) :
  notifications ((λ x, EvCall x) <$> s) = 0.
Proof.
  unfold notifications. induction s as [|y s IH]; [done |].
  rewrite fmap_cons, filter_cons, decide_False by done. done.
Qed.

(** The calls [emit] makes of one listener: one if it is registered for
    the type, none otherwise. *)
Lemma calls_emit type l (ls : gmap string (list fnref)) :
  sets_wf ls →
  calls l (emit type ls)
  = if decide (l ∈ default [] (ls !! type)) then 1 else 0.
Proof.
  intros Hwf. unfold emit.
  assert (calls l (EvEmit type :: []) = 0) as _ by done.
  destruct (ls !! type) as [set|] eqn:E; simpl.
  - unfold calls at 1. rewrite filter_cons, decide_False by done.
    fold (calls l ((λ x, EvCall x) <$> set)).
    rewrite calls_EvCall. apply filter_eq_NoDup. by eapply Hwf.
  - destruct (decide (l ∈ [])) as [Hin|_]; [|done].
    by apply not_elem_of_nil in Hin.
Qed.

(** C8.  Registering the same listener twice for the same type leaves the
    listeners as one registration does, and an [emit] of that type then
    calls the listener exactly once.  [removeEventListener] of a listener
    that is not registered for the type returns the listeners unchanged
    (the function is total: there is no error to raise). *)
Theorem C8_subscribe_idempotent_unsubscribe_absent
    (ls : gmap string (list fnref)) (type : string) (listener : fnref) :
  sets_wf ls →
  let once := addEventListener type listener ls in
  let twice := addEventListener type listener once in
  twice = once ∧
  calls listener (emit type twice) = 1 ∧
  (∀ (type' : string) (other : fnref),
     (∀ set, ls !! type' = Some set → other ∉ set) →
     removeEventListener type' other ls = ls).
Proof.
  intros Hwf once twice. subst once twice.
  rewrite addEventListener_idem. split_and!; [done | |].
  - rewrite calls_emit by by apply addEventListener_wf.
    rewrite addEventListener_insert, lookup_insert_eq. simpl.
    rewrite decide_True; [done | apply set_add_elem].
  - intros type' other Habs. rewrite removeEventListener_insert.
    destruct (ls !! type') as [set|] eqn:E; [|done].
    rewrite set_delete_absent by by apply Habs.
    by apply insert_id.
Qed.

(** C8 on an emitter that has one other listener for ["change"]. *)
Lemma C8_subscribe_idempotent_unsubscribe_absent_witness :
  let ls : gmap string (list fnref) := {[ "change" := [7%positive] ]} in
  addEventListener "change" 3%positive
    (addEventListener "change" 3%positive ls)
  = addEventListener "change" 3%positive ls ∧
  calls 3%positive
    (emit "change"
       (addEventListener "change" 3%positive
          (addEventListener "change" 3%positive ls))) = 1 ∧
  (∀ (type' : string) (other : fnref),
     (∀ set, ls !! type' = Some set → other ∉ set) →
     removeEventListener type' other ls = ls).
Proof.
  intros ls.
  apply (C8_subscribe_idempotent_unsubscribe_absent ls "change" 3%positive).
  intros type set. unfold ls.
  destruct (decide (type = "change")) as [->|Hne].
  - rewrite lookup_singleton_eq. intros [= <-]. apply NoDup_singleton.
  - by rewrite lookup_singleton_ne.
Defined.

End EmitterFacts.

(* ===================================================================== *)
(** ** Properties of TodoListModel.js                                     *)
(* ===================================================================== *)

Section ModelFacts.
Import EventEmitter TodoListModel Props.

Lemma emit_change st : emit "change" (listeners st) = one_change st.
Proof.
  unfold emit, one_change, change_listeners.
  by destruct (listeners st !! "change").
Qed.

Lemma notifications_one_change st : notifications (one_change st) = 1.
Proof.
  unfold one_change, notifications.
  rewrite filter_cons, decide_True by done. simpl.
  fold (notifications ((λ l, EvCall l) <$> change_listeners st)).
  by rewrite notifications_EvCall.
Qed.

Lemma calls_one_change st l :
  sets_wf (listeners st) →
  calls l (one_change st) = if decide (l ∈ change_listeners st) then 1 else 0.
Proof. intros Hwf. rewrite <- emit_change. by apply calls_emit. Qed.

Lemma events_since_same st : events_since st st = [].
Proof. unfold events_since. by rewrite drop_all. Qed.

(** A notification after steps that left the trace alone. *)
Lemma events_since_emitChange st st1 :
  trace st1 = trace st → listeners st1 = listeners st →
  events_since st (emitChange st1) = one_change st.
Proof.
  intros Ht Hl. unfold events_since, emitChange. simpl.
  rewrite Ht, drop_app_length, emit_change.
  unfold one_change, change_listeners. by rewrite Hl.
Qed.

Lemma array_get_push r x st :
  is_Some (arrs st !! r) →
  array_get r (array_push r x st) = array_get r st ++ [x].
Proof.
  intros [a Ha]. unfold array_get, array_push. simpl.
  rewrite lookup_alter_eq, Ha. done.
Qed.

Lemma array_get_push_ne r r' x st :
  r ≠ r' → array_get r' (array_push r x st) = array_get r' st.
Proof.
  intros Hne. unfold array_get, array_push. simpl.
  by rewrite lookup_alter_ne.
Qed.

(** What [addTodo] does with an entity whose title is not empty. *)
Lemma addTodo_accept st todoItem this :
  objs st !! todoItem = Some this →
  String.length (title this) ≠ 0 →
  addTodo todoItem st = emitChange (array_push (items st) todoItem st).
Proof.
  intros Hobj Hlen. unfold addTodo. rewrite Hobj.
  unfold isEmptyTitle. by destruct (String.length (title this)).
Qed.

Lemma addTodo_reject st todoItem this :
  objs st !! todoItem = Some this →
  String.length (title this) = 0 →
  addTodo todoItem st = st.
Proof.
  intros Hobj Hlen. unfold addTodo. rewrite Hobj.
  unfold isEmptyTitle. by rewrite Hlen.
Qed.

(** C2.  [addTodo] of an entity whose title has a length other than zero
    appends the entity at the end of the sequence and makes exactly one
    ["change"] notification, which calls every registered listener once;
    nothing else changes.  [addTodo] of an entity whose title has length
    zero returns the state as it was: the sequence, the count and the
    trace are the same, so no listener is called.  The number of
    notifications is one exactly when the length is not zero; a title of
    three spaces has length three and is appended and notified. *)
Theorem C2_addTodo_rejects_only_empty_title
    (st : State) (todoItem : loc) (this : TodoItemModel) :
  wf st →
  objs st !! todoItem = Some this →
  let st' := addTodo todoItem st in
  (String.length (title this) ≠ 0 →
     item_refs st' = item_refs st ++ [todoItem] ∧
     getTotalCount st' = S (getTotalCount st) ∧
     events_since st st' = one_change st ∧
     (∀ l, calls l (events_since st st')
           = if decide (l ∈ change_listeners st) then 1 else 0) ∧
     objs st' = objs st ∧ items st' = items st ∧
     listeners st' = listeners st ∧ todoIdx st' = todoIdx st) ∧
  (String.length (title this) = 0 →
     st' = st ∧ item_refs st' = item_refs st ∧
     getTotalCount st' = getTotalCount st ∧
     events_since st st' = [] ∧
     (∀ l, calls l (events_since st st') = 0)) ∧
  notifications (events_since st st')
  = (if decide (String.length (title this) = 0) then 0 else 1) ∧
  (title this = "   " →
     item_refs st' = item_refs st ++ [todoItem] ∧
     notifications (events_since st st') = 1).
Proof.
  intros [Halloc Hsets] Hobj st'.
  assert (String.length (title this) ≠ 0 →
          item_refs st' = item_refs st ++ [todoItem] ∧
          events_since st st' = one_change st) as Hacc.
  { intros Hlen. subst st'. rewrite (addTodo_accept _ _ _ Hobj Hlen).
    split.
    - unfold item_refs. simpl. by apply array_get_push.
    - by apply events_since_emitChange. }
  assert (String.length (title this) = 0 → st' = st) as Hrej.
  { intros Hlen. subst st'. by eapply addTodo_reject. }
  split_and!.
  - intros Hlen. destruct (Hacc Hlen) as [Hitems Hev].
    rewrite Hev. split_and!; try done.
    + unfold getTotalCount. fold (item_refs st') (item_refs st).
      rewrite Hitems, length_app. simpl. lia.
    + intros l. by apply calls_one_change.
    + subst st'. by rewrite (addTodo_accept _ _ _ Hobj Hlen).
    + subst st'. by rewrite (addTodo_accept _ _ _ Hobj Hlen).
    + subst st'. by rewrite (addTodo_accept _ _ _ Hobj Hlen).
    + subst st'. by rewrite (addTodo_accept _ _ _ Hobj Hlen).
  - intros Hlen. rewrite (Hrej Hlen), events_since_same. done.
  - case_decide as Hlen.
    + by rewrite (Hrej Hlen), events_since_same.
    + destruct (Hacc Hlen) as [_ ->]. apply notifications_one_change.
  - intros Ht.
    assert (String.length (title this) ≠ 0) as Hlen by by rewrite Ht.
    destruct (Hacc Hlen) as [-> ->]. split; [done |].
    apply notifications_one_change.
Qed.

(** C2 on the container the application starts with, for an entity whose
    title is three spaces. *)
Lemma C2_addTodo_rejects_only_empty_title_witness :
  wf (new_TodoItemModel "   " false App.initial_state).2 ∧
  item_refs (addTodo 1%positive
               (new_TodoItemModel "   " false App.initial_state).2)
  = [1%positive].
Proof.
  assert (wf (new_TodoItemModel "   " false App.initial_state).2) as Hwf.
  { split; [by eexists |]. intros type set. simpl. by rewrite lookup_empty. }
  split; [exact Hwf |].
  destruct (C2_addTodo_rejects_only_empty_title
              (new_TodoItemModel "   " false App.initial_state).2
              1%positive
              {| id := 0; title := "   "; completed := false |}
              Hwf eq_refl) as (Hacc & _).
  destruct Hacc as (Hrefs & _); [simpl; lia |].
  exact Hrefs.
Defined.

(** The array [deleteTodo] makes is not one of the store. *)
Lemma fresh_array_new st : fresh (dom (arrs st)) ∉ dom (arrs st).
Proof. apply is_fresh. Qed.

Lemma item_refs_deleteTodo st i :
  item_refs (deleteTodo i st)
  = filter (λ todo, id_of st todo ≠ Some i) (item_refs st).
Proof.
  unfold item_refs, deleteTodo, array_get. simpl.
  by rewrite lookup_insert_eq.
Qed.

(** What the listeners are shown by a notification after steps that left
    [seen] alone. *)
Lemma seen_since_emitChange st st1 :
  seen st1 = seen st →
  seen_since st (emitChange st1) = [item_refs st1].
Proof.
  intros Hs. unfold seen_since, emitChange. simpl.
  by rewrite Hs, drop_app_length.
Qed.

(** C3.  [deleteTodo] puts in place of the sequence a new array holding
    the entities whose id differs from the given one, in their former
    order: every match is gone and nothing else is.  The entities and the
    arrays that were in the store are not touched.  Then, with the new
    sequence in place, exactly one ["change"] notification is made: the
    sequence the listeners are shown is the new one.  This is so in every
    case, also when no entity matched; on an empty container the count
    stays zero, as for [deleteTodo] of 999 on the container the
    application starts with.  After the additions of [A] and [B],
    [deleteTodo] of the id 0 leaves the one entity of id 1, and that is
    what the listeners are shown. *)
Theorem C3_deleteTodo_filters_and_always_notifies (st : State) (i : Z) :
  let st' := deleteTodo i st in
  (item_refs st'
   = filter (λ todo, id_of st todo ≠ Some i) (item_refs st)) ∧
  (∀ todo, todo ∈ item_refs st'
           ↔ todo ∈ item_refs st ∧ id_of st todo ≠ Some i) ∧
  (item_refs st' `sublist_of` item_refs st) ∧
  (items st' ∉ dom (arrs st)) ∧
  (∀ r, r ∈ dom (arrs st) → arrs st' !! r = arrs st !! r) ∧
  objs st' = objs st ∧
  events_since st st' = one_change st ∧
  notifications (events_since st st') = 1 ∧
  seen_since st st'
  = [filter (λ todo, id_of st todo ≠ Some i) (item_refs st)] ∧
  (getTotalCount st = 0 → getTotalCount st' = 0) ∧
  getTotalCount (deleteTodo 999 App.initial_state) = 0 ∧
  events_since App.initial_state (deleteTodo 999 App.initial_state)
  = [EvEmit "change"] ∧
  item_ids (deleteTodo 0 (run [ADD_TODO "A"; ADD_TODO "B"] App.initial_state))
  = [1%Z] ∧
  seen_since (run [ADD_TODO "A"; ADD_TODO "B"] App.initial_state)
    (deleteTodo 0 (run [ADD_TODO "A"; ADD_TODO "B"] App.initial_state))
  = [[2%positive]].
Proof.
  intros st'. subst st'.
  assert (events_since st (deleteTodo i st) = one_change st) as Hev.
  { unfold deleteTodo. by apply events_since_emitChange. }
  assert (seen_since st (deleteTodo i st) = [item_refs (deleteTodo i st)])
    as Hseen.
  { unfold deleteTodo at 1. by rewrite seen_since_emitChange. }
  rewrite Hev, Hseen, item_refs_deleteTodo.
  split_and!; try done.
  - intros todo. rewrite list_elem_of_filter. tauto.
  - apply sublist_filter.
  - apply fresh_array_new.
  - intros r Hr. unfold deleteTodo. simpl.
    apply lookup_insert_ne. intros <-. by apply fresh_array_new in Hr.
  - apply notifications_one_change.
  - unfold getTotalCount. fold (item_refs st) (item_refs (deleteTodo i st)).
    rewrite item_refs_deleteTodo. intros Hz.
    apply nil_length_inv in Hz. by rewrite Hz.
Qed.

(** C3 on the container after the additions of [A] and [B]: the entity of
    id 0 is taken out, and the listeners are shown the sequence without
    it. *)
Lemma C3_deleteTodo_filters_and_always_notifies_witness :
  item_refs (deleteTodo 0 (run [ADD_TODO "A"; ADD_TODO "B"] App.initial_state))
  = [2%positive] ∧
  seen_since (run [ADD_TODO "A"; ADD_TODO "B"] App.initial_state)
    (deleteTodo 0 (run [ADD_TODO "A"; ADD_TODO "B"] App.initial_state))
  = [[2%positive]] ∧
  item_refs (run [ADD_TODO "A"; ADD_TODO "B"] App.initial_state)
  = [1%positive; 2%positive].
Proof.
  destruct (C3_deleteTodo_filters_and_always_notifies
              (run [ADD_TODO "A"; ADD_TODO "B"] App.initial_state) 0)
    as (Hrefs & _ & _ & _ & _ & _ & _ & _ & Hseen & _).
  rewrite Hrefs, Hseen. split_and!; vm_compute; reflexivity.
Defined.

Lemma updateTodo_none st i c :
  (∀ todo, todo ∈ item_refs st → id_of st todo ≠ Some i) →
  updateTodo i c st = st.
Proof.
  intros Hnone. unfold updateTodo.
  destruct (list_find _ _) as [[k todo]|] eqn:Hfind; [|done].
  apply list_find_Some in Hfind as (Hk & Hid & _).
  destruct (Hnone todo); [|done].
  by eapply list_elem_of_lookup_2.
Qed.

Lemma updateTodo_first st i c k todoItem :
  item_refs st !! k = Some todoItem →
  id_of st todoItem = Some i →
  (∀ j todo, j < k → item_refs st !! j = Some todo →
             id_of st todo ≠ Some i) →
  updateTodo i c st = emitChange (set_completed todoItem c st).
Proof.
  intros Hk Hid Hfirst. unfold updateTodo.
  assert (list_find (λ todo, id_of st todo = Some i) (array_get (items st) st)
          = Some (k, todoItem)) as ->; [|done].
  apply list_find_Some. split_and!; [done | done |].
  intros j todo Hj Hlt. by eapply Hfirst.
Qed.

(** C4.  When no entity of the container has the given id, [updateTodo]
    returns the state as it was, and the trace with it: nothing is
    notified.  When some entity has it, the first such entity in the
    sequence gets the given [completed]; its id and title, every other
    entity, the sequence and the arrays stay as they were, and exactly one
    ["change"] notification follows. *)
Theorem C4_updateTodo_first_match_or_nothing
    (st : State) (i : Z) (c : bool) :
  let st' := updateTodo i c st in
  ((∀ todo, todo ∈ item_refs st → id_of st todo ≠ Some i) →
     st' = st ∧ events_since st st' = [] ∧
     notifications (events_since st st') = 0) ∧
  (∀ (k : nat) (todoItem : loc) (this : TodoItemModel),
     item_refs st !! k = Some todoItem →
     objs st !! todoItem = Some this →
     id this = i →
     (∀ j todo, j < k → item_refs st !! j = Some todo →
                id_of st todo ≠ Some i) →
     objs st' !! todoItem
     = Some {| id := id this; title := title this; completed := c |} ∧
     (∀ other, other ≠ todoItem → objs st' !! other = objs st !! other) ∧
     item_refs st' = item_refs st ∧
     arrs st' = arrs st ∧ items st' = items st ∧
     listeners st' = listeners st ∧ todoIdx st' = todoIdx st ∧
     events_since st st' = one_change st ∧
     notifications (events_since st st') = 1).
Proof.
  intros st'. subst st'. split.
  - intros Hnone. rewrite (updateTodo_none _ _ _ Hnone).
    by rewrite events_since_same.
  - intros k todoItem this Hk Hobj Hid Hfirst.
    assert (id_of st todoItem = Some i) as Hidof.
    { unfold id_of. by rewrite Hobj, <- Hid. }
    rewrite (updateTodo_first _ _ _ _ _ Hk Hidof Hfirst).
    assert (events_since st (emitChange (set_completed todoItem c st))
            = one_change st) as Hev
      by by apply events_since_emitChange.
    rewrite Hev. split_and!; try done.
    + simpl. by rewrite lookup_alter_eq, Hobj.
    + intros other Hne. simpl. by rewrite lookup_alter_ne.
    + apply notifications_one_change.
Qed.

(** C4 on a container with one entity, whose id is 0. *)
Lemma C4_updateTodo_first_match_or_nothing_witness :
  let st := App.handleAdd "Buy milk" App.initial_state in
  (updateTodo 7 true st = st) ∧
  completed <$> objs (updateTodo 0 true st) !! 1%positive = Some true.
Proof.
  intros st.
  destruct (C4_updateTodo_first_match_or_nothing st 7 true) as [Hnone _].
  destruct (C4_updateTodo_first_match_or_nothing st 0 true) as [_ Hfirst].
  split.
  - apply Hnone. intros todo Hin.
    assert (todo = 1%positive) as ->
      by (vm_compute in Hin; by apply list_elem_of_singleton in Hin).
    vm_compute. discriminate.
  - destruct (Hfirst 0 1%positive
                {| id := 0; title := "Buy milk"; completed := false |})
      as [-> _]; try reflexivity.
    intros j todo Hj. lia.
Defined.

Lemma id_of_set_completed st todoItem c l :
  id_of (set_completed todoItem c st) l = id_of st l.
Proof.
  unfold id_of, set_completed. simpl.
  destruct (decide (todoItem = l)) as [->|Hne].
  - rewrite lookup_alter_eq. by destruct (objs st !! l).
  - by rewrite lookup_alter_ne.
Qed.

Lemma updateTodo_cases st i c :
  updateTodo i c st = st ∨
  ∃ todoItem, updateTodo i c st = emitChange (set_completed todoItem c st).
Proof.
  unfold updateTodo. destruct (list_find _ _) as [[k todo]|]; eauto.
Qed.

Lemma item_refs_updateTodo st i c :
  item_refs (updateTodo i c st) = item_refs st.
Proof. by destruct (updateTodo_cases st i c) as [->|[todo ->]]. Qed.

Lemma id_of_updateTodo st i c l : id_of (updateTodo i c st) l = id_of st l.
Proof.
  destruct (updateTodo_cases st i c) as [->|[todo ->]]; [done |].
  apply id_of_set_completed.
Qed.

Lemma id_of_deleteTodo st i l : id_of (deleteTodo i st) l = id_of st l.
Proof. done. Qed.

(** Updates and deletions only: the sequence that is left is made of
    entities that were there, in the order they were in, with the ids
    they had. *)
Lemma run_without_add acts st :
  forallb (λ a, negb (is_add a)) acts = true →
  item_refs (run acts st) `sublist_of` item_refs st ∧
  (∀ l, id_of (run acts st) l = id_of st l).
Proof.
  revert st. induction acts as [|a acts IH]; intros st Hacts.
  { done. }
  simpl in Hacts. apply andb_prop in Hacts as [Ha Hacts].
  unfold run. cbn [foldl]. fold (run acts (App.dispatch a st)).
  destruct (IH (App.dispatch a st) Hacts) as [Hsub Hids].
  destruct a as [t|i c|i]; [done | |]; simpl in *.
  - unfold App.handleUpdate in *.
    rewrite item_refs_updateTodo in Hsub. split; [done |].
    intros l. by rewrite Hids, id_of_updateTodo.
  - unfold App.handleDelete in *.
    rewrite item_refs_deleteTodo in Hsub. split.
    + etrans; [exact Hsub | apply sublist_filter].
    + intros l. by rewrite Hids.
Qed.

Lemma createElement_is_Some todoItem :
  is_Some (TodoItemView.createElement todoItem).
Proof.
  unfold TodoItemView.createElement. destruct (completed todoItem); by eexists.
Qed.

(** C7, as the claim has it, fails: an element pushed on the array that
    [getTodoItems] returned is counted by [getTotalCount] afterwards. *)
Lemma C7_getTodoItems_copy_counterexample :
  ¬ (∀ (st : State) (x : loc),
       wf st →
       let st' := array_push (getTodoItems st) x st in
       getTotalCount st' = getTotalCount st ∧
       array_get (getTodoItems st') st' = array_get (getTodoItems st) st).
Proof.
  intros Hclaim.
  assert (wf (App.handleAdd "Buy milk" App.initial_state)) as Hwf.
  { split; [by eexists |]. intros type set. vm_compute. discriminate. }
  destruct (Hclaim (App.handleAdd "Buy milk" App.initial_state)
                   1%positive Hwf) as [Hcount _].
  vm_compute in Hcount. discriminate.
Qed.

(** C7, amended.  [getTodoItems] returns the array [#items] itself and
    changes nothing.  An element pushed on the returned array is at the
    end of the sequence the container shows afterwards, and the count is
    one more.  Only once [deleteTodo] has put a new array in place does a
    push on the array returned earlier leave the container as it is. *)
Theorem C7_getTodoItems_returns_the_internal_array
    (st : State) (x : loc) :
  items_allocated st →
  let view := getTodoItems st in
  let st' := array_push view x st in
  view = items st ∧
  array_get view st = item_refs st ∧
  item_refs st' = item_refs st ++ [x] ∧
  array_get (getTodoItems st') st' = array_get view st ++ [x] ∧
  getTotalCount st' = S (getTotalCount st) ∧
  getTodoItems st' = view ∧
  (∀ i, let st1 := deleteTodo i st in
        getTodoItems st1 ≠ view ∧
        item_refs (array_push view x st1) = item_refs st1 ∧
        getTotalCount (array_push view x st1) = getTotalCount st1).
Proof.
  intros Halloc view st'. subst view st'. unfold getTodoItems.
  assert (item_refs (array_push (items st) x st) = item_refs st ++ [x])
    as Hpush by by apply array_get_push.
  split_and!; try done.
  - unfold getTotalCount. fold (item_refs (array_push (items st) x st)).
    fold (item_refs st). rewrite Hpush, length_app. simpl. lia.
  - intros i. set (st1 := deleteTodo i st).
    assert (items st1 ≠ items st) as Hne.
    { intros Heq. apply (fresh_array_new st).
      unfold st1, deleteTodo in Heq. simpl in Heq. rewrite Heq.
      by apply elem_of_dom. }
    assert (item_refs (array_push (items st) x st1) = item_refs st1) as Hsame.
    { unfold item_refs. cbn [items array_push set_arrs].
      by apply array_get_push_ne. }
    split_and!; [done | done |].
    unfold getTotalCount. fold (item_refs (array_push (items st) x st1)).
    by rewrite Hsame.
Qed.

(** C7, amended, on the container the application starts with. *)
Lemma C7_getTodoItems_returns_the_internal_array_witness :
  items_allocated App.initial_state ∧
  getTotalCount
    (array_push (getTodoItems App.initial_state) 1%positive App.initial_state)
  = S (getTotalCount App.initial_state).
Proof.
  assert (items_allocated App.initial_state) as Halloc by (by eexists).
  split; [exact Halloc |].
  apply (C7_getTodoItems_returns_the_internal_array
           App.initial_state 1%positive Halloc).
Defined.

End ModelFacts.

(* ===================================================================== *)
(** ** Ids: TodoItemModel.js under the controller of app.js               *)
(* ===================================================================== *)

Section IdFacts.
Import EventEmitter TodoListModel Props.

Lemma js_succ_exact n : (n < 2 ^ 53)%Z → js_succ n = (n + 1)%Z.
Proof. intros Hn. unfold js_succ. by rewrite decide_True. Qed.

Lemma todoIdx_updateTodo st i c : todoIdx (updateTodo i c st) = todoIdx st.
Proof. by destruct (updateTodo_cases st i c) as [->|[todo ->]]. Qed.

Lemma items_allocated_updateTodo st i c :
  items_allocated st → items_allocated (updateTodo i c st).
Proof. by destruct (updateTodo_cases st i c) as [->|[todo ->]]. Qed.

Lemma items_allocated_deleteTodo st i : items_allocated (deleteTodo i st).
Proof.
  unfold items_allocated, deleteTodo. simpl.
  rewrite lookup_insert_eq. by eexists.
Qed.

Lemma items_allocated_push st x :
  items_allocated st →
  items_allocated (emitChange (array_push (items st) x st)).
Proof.
  intros [a Ha]. unfold items_allocated. simpl.
  rewrite lookup_alter_eq, Ha. by eexists.
Qed.

(** The constructor: the new object is not one of the store, its id is
    the counter, and the other objects are as they were. *)
Lemma new_TodoItemModel_spec title c st :
  let this := (new_TodoItemModel title c st).1 in
  let st1 := (new_TodoItemModel title c st).2 in
  id_of st this = None ∧
  objs st1 !! this
  = Some {| id := todoIdx st; title := title; completed := c |} ∧
  (∀ l, l ≠ this → objs st1 !! l = objs st !! l) ∧
  todoIdx st1 = js_succ (todoIdx st) ∧
  arrs st1 = arrs st ∧ items st1 = items st ∧
  listeners st1 = listeners st ∧ trace st1 = trace st.
Proof.
  simpl. split_and!; try done.
  - unfold id_of.
    rewrite (not_elem_of_dom_1 (objs st) (fresh (dom (objs st)))); [done |].
    apply is_fresh.
  - by rewrite lookup_insert_eq.
  - intros l Hne. by rewrite lookup_insert_ne.
Qed.

(** [#handleAdd]: the ids, the counter and the sequence afterwards. *)
Lemma handleAdd_spec title st :
  items_allocated st →
  let this := fresh (dom (objs st)) in
  let st' := App.handleAdd title st in
  id_of st this = None ∧
  (∀ l, id_of st' l
        = if decide (l = this) then Some (todoIdx st) else id_of st l) ∧
  todoIdx st' = js_succ (todoIdx st) ∧
  item_refs st'
  = (if decide (String.length title = 0) then item_refs st
     else item_refs st ++ [this]) ∧
  items_allocated st'.
Proof.
  intros Halloc this st'.
  destruct (new_TodoItemModel_spec title false st)
    as (Hnew & Hthis & Hother & Hidx & Harrs & Hitems & _).
  set (st1 := (new_TodoItemModel title false st).2) in *.
  change (new_TodoItemModel title false st).1 with this in *.
  assert (st' = addTodo this st1) as Hst' by done.
  assert (∀ l, id_of st1 l
               = if decide (l = this) then Some (todoIdx st) else id_of st l)
    as Hids.
  { intros l. unfold id_of. case_decide as Hl.
    - subst l. by rewrite Hthis.
    - by rewrite Hother. }
  assert (item_refs st1 = item_refs st) as Hrefs.
  { unfold item_refs, array_get. by rewrite Harrs, Hitems. }
  assert (items_allocated st1) as Halloc1.
  { unfold items_allocated. by rewrite Harrs, Hitems. }
  split; [done |].
  case_decide as Hlen.
  - rewrite Hst', (addTodo_reject st1 this _ Hthis Hlen). done.
  - rewrite Hst', (addTodo_accept st1 this _ Hthis Hlen).
    split_and!; try done.
    + change (item_refs (emitChange (array_push (items st1) this st1)))
        with (array_get (items st1) (array_push (items st1) this st1)).
      rewrite array_get_push by done.
      fold (item_refs st1). by rewrite Hrefs.
    + by apply items_allocated_push.
Qed.




(** A step that keeps the ids and the counter, and takes nothing but a
    subsequence of the container, keeps the invariant. *)
Lemma inv_transfer st st' :
  (∀ l, id_of st' l = id_of st l) →
  todoIdx st' = todoIdx st →
  item_refs st' `sublist_of` item_refs st →
  items_allocated st' →
  inv st → inv st'.
Proof.
  intros Hids Hidx Hsub Halloc (_ & Hbelow & Huniq & Hlive & Honce).
  split_and!; [done | | | |].
  - intros l i. rewrite Hids, Hidx. apply Hbelow.
  - intros l1 l2 i. rewrite !Hids. apply Huniq.
  - intros l Hl. rewrite Hids. apply Hlive. by eapply elem_of_sublist.
  - by eapply sublist_NoDup.
Qed.

Lemma inv_handleAdd title st :
  inv st → (todoIdx st < 2 ^ 53)%Z → inv (App.handleAdd title st).
Proof.
  intros (Halloc & Hbelow & Huniq & Hlive & Honce) Hidx.
  destruct (handleAdd_spec title st Halloc)
    as (Hnone & Hids & Hidx' & Hrefs & Halloc').
  set (this := fresh (dom (objs st))) in *.
  rewrite js_succ_exact in Hidx' by done.
  assert (this ∉ item_refs st) as Hthis.
  { intros Hin. apply Hlive in Hin as [i Hi]. congruence. }
  split_and!; [done | | | |].
  - intros l i. rewrite Hids, Hidx'.
    destruct (decide (l = this)) as [_|_].
    + intros [= Heq]. lia.
    + intros Hl. apply Hbelow in Hl. lia.
  - intros l1 l2 i. rewrite !Hids.
    destruct (decide (l1 = this)) as [->|H1],
             (decide (l2 = this)) as [->|H2]; try done.
    + intros [= Heq] Hl. apply Hbelow in Hl. lia.
    + intros Hl [= Heq]. apply Hbelow in Hl. lia.
    + apply Huniq.
  - intros l. rewrite Hrefs, Hids.
    destruct (decide (l = this)) as [_|Hl]; [done |].
    destruct (decide (String.length title = 0)) as [_|_].
    + apply Hlive.
    + intros [Hin|Hin%list_elem_of_singleton]%elem_of_app;
        [by apply Hlive | done].
  - unfold items_once. rewrite Hrefs.
    destruct (decide (String.length title = 0)) as [_|_]; [done |].
    apply NoDup_app. split_and!; [done | | apply NoDup_singleton].
    intros l Hl Hl'%list_elem_of_singleton. by subst.
Qed.

(** One action of the controller. *)
Lemma dispatch_step a st :
  inv st → (todoIdx st < 2 ^ 53)%Z →
  inv (App.dispatch a st) ∧
  (todoIdx st ≤ todoIdx (App.dispatch a st) ≤ todoIdx st + 1)%Z ∧
  (∀ l i, id_of st l = Some i → id_of (App.dispatch a st) l = Some i) ∧
  (∀ l i, id_of st l = None → id_of (App.dispatch a st) l = Some i →
          (todoIdx st ≤ i)%Z).
Proof.
  intros Hinv Hidx. destruct a as [title|i c|i]; simpl.
  - split; [by apply inv_handleAdd |].
    destruct Hinv as (Halloc & _).
    destruct (handleAdd_spec title st Halloc)
      as (Hnone & Hids & Hidx' & _).
    rewrite js_succ_exact in Hidx' by done.
    split_and!; [lia | lia | |].
    + intros l j Hl. rewrite Hids.
      destruct (decide (l = fresh (dom (objs st)))); [congruence | done].
    + intros l j Hl. rewrite Hids.
      destruct (decide (l = fresh (dom (objs st)))); [|congruence].
      intros [= Heq]. lia.
  - unfold App.handleUpdate. rewrite todoIdx_updateTodo.
    split_and!; [| lia | lia | |].
    + eapply inv_transfer; [| | | | exact Hinv].
      * apply id_of_updateTodo.
      * apply todoIdx_updateTodo.
      * by rewrite item_refs_updateTodo.
      * apply items_allocated_updateTodo. by destruct Hinv.
    + intros l j. by rewrite id_of_updateTodo.
    + intros l j. rewrite id_of_updateTodo. congruence.
  - unfold App.handleDelete.
    split_and!; [| simpl; lia | simpl; lia | done |].
    + eapply inv_transfer; [| | | | exact Hinv].
      * done.
      * done.
      * rewrite item_refs_deleteTodo. apply sublist_filter.
      * apply items_allocated_deleteTodo.
    + intros l j. rewrite id_of_deleteTodo. congruence.
Qed.

(** A run of the controller, as long as the counter stays exact. *)
Lemma run_steps acts st :
  inv st → (todoIdx st + Z.of_nat (length acts) ≤ 2 ^ 53)%Z →
  inv (run acts st) ∧
  (todoIdx st ≤ todoIdx (run acts st))%Z ∧
  (∀ l i, id_of st l = Some i → id_of (run acts st) l = Some i) ∧
  (∀ l i, id_of st l = None → id_of (run acts st) l = Some i →
          (todoIdx st ≤ i)%Z).
Proof.
  revert st. induction acts as [|a acts IH]; intros st Hinv Hbound.
  { split_and!; [done | done | done |].
    intros l i Hnone Hl. change (run [] st) with st in Hl. congruence. }
  rewrite length_cons in Hbound.
  destruct (dispatch_step a st Hinv) as (Hinv1 & Hidx1 & Hold1 & Hnew1);
    [lia |].
  unfold run. cbn [foldl]. fold (run acts (App.dispatch a st)).
  destruct (IH (App.dispatch a st) Hinv1) as (Hinv2 & Hidx2 & Hold2 & Hnew2);
    [lia |].
  split_and!; [done | lia | |].
  - intros l i Hl. by apply Hold2, Hold1.
  - intros l i Hnone Hl.
    destruct (id_of (App.dispatch a st) l) as [j|] eqn:Hmid.
    + rewrite (Hold2 l j Hmid) in Hl. injection Hl as <-.
      by eapply Hnew1.
    + specialize (Hnew2 l i Hmid Hl). lia.
Qed.

Lemma inv_initial : inv App.initial_state.
Proof.
  split_and!.
  - by eexists.
  - intros l i. unfold id_of. simpl. by rewrite lookup_empty.
  - intros l1 l2 i. unfold id_of. simpl. by rewrite lookup_empty.
  - intros l Hl. vm_compute in Hl. by apply not_elem_of_nil in Hl.
  - vm_compute. constructor.
Qed.






End IdFacts.

(* ===================================================================== *)
(** ** Properties of app.js                                               *)
(* ===================================================================== *)

Section AppFacts.
Import EventEmitter TodoListModel Props.

Lemma mount_idem app s : App.mount app (App.mount app s) = App.mount app s.
Proof.
  unfold App.mount, onChange. simpl.
  by rewrite addEventListener_idem, set_add_idem.
Qed.

Lemma mount_iter app s n :
  Nat.iter (S n) (App.mount app) s = App.mount app s.
Proof.
  induction n as [|n IH]; [done |].
  change (Nat.iter (S (S n)) (App.mount app) s)
    with (App.mount app (Nat.iter (S n) (App.mount app) s)).
  by rewrite IH, mount_idem.
Qed.

Lemma mount_wf app s :
  sets_wf (listeners (App.world s)) →
  sets_wf (listeners (App.world (App.mount app s))).
Proof. intros Hwf. simpl. by apply addEventListener_wf. Qed.

Lemma mount_registers app s :
  App.handleChange_fn app ∈ change_listeners (App.world (App.mount app s)).
Proof.
  unfold change_listeners. simpl.
  rewrite addEventListener_insert, lookup_insert_eq. simpl.
  apply set_add_elem.
Qed.

(** A mutation that succeeds is followed by one notification. *)
Lemma dispatch_succeeds a st :
  succeeds a st → events_since st (App.dispatch a st) = one_change st.
Proof.
  destruct a as [title|i c|i]; simpl.
  - intros Hlen. unfold App.handleAdd.
    destruct (new_TodoItemModel_spec title false st)
      as (_ & Hthis & _ & _ & _ & _ & Hls & Htr).
    destruct (new_TodoItemModel title false st) as [this st1] eqn:Hnew.
    simpl in Hthis, Hls, Htr.
    rewrite (addTodo_accept st1 this _ Hthis Hlen).
    by apply events_since_emitChange.
  - intros (todo & Hin & Hid). unfold App.handleUpdate, updateTodo.
    destruct (list_find _ _) as [[k found]|] eqn:Hfind.
    + by apply events_since_emitChange.
    + exfalso. apply list_find_None in Hfind.
      eapply Forall_forall in Hfind; [|exact Hin]. done.
  - intros _. unfold App.handleDelete, deleteTodo.
    by apply events_since_emitChange.
Qed.

(** C10.  Any number of [mount] calls in a row leaves the state one
    [mount] leaves: [#handleChange] is registered once for ["change"] and
    [#handleSubmit] once on the form.  A mutation that succeeds (an
    addition with a title that is not empty, an update of an id the
    container holds, a deletion) then makes one notification, in which
    [#handleChange] is called exactly once. *)
Theorem C10_mount_again_registers_once
    (app : App.App) (s : App.AppState) (n : nat) (a : action) :
  sets_wf (listeners (App.world s)) →
  let s' := Nat.iter (S n) (App.mount app) s in
  s' = App.mount app s ∧
  calls (App.handleChange_fn app) (one_change (App.world s')) = 1 ∧
  (succeeds a (App.world s') →
     notifications
       (events_since (App.world s') (App.dispatch a (App.world s'))) = 1 ∧
     calls (App.handleChange_fn app)
       (events_since (App.world s') (App.dispatch a (App.world s'))) = 1).
Proof.
  intros Hwf s'. subst s'. rewrite mount_iter.
  assert (calls (App.handleChange_fn app)
                (one_change (App.world (App.mount app s))) = 1) as Hone.
  { rewrite calls_one_change by by apply mount_wf.
    rewrite decide_True; [done | apply mount_registers]. }
  split_and!; [done | done |].
  intros Hok. rewrite (dispatch_succeeds _ _ Hok).
  split; [apply notifications_one_change | done].
Qed.

(** C10 on the application as it starts: three [mount] calls, then the
    submission of a title. *)
Lemma C10_mount_again_registers_once_witness :
  calls 1%positive
    (events_since
       (App.world (Nat.iter 3 (App.mount {| App.handleChange_fn := 1;
                                           App.handleSubmit_fn := 2 |})
                           App.initial))
       (App.dispatch (ADD_TODO "Buy milk")
          (App.world (Nat.iter 3 (App.mount {| App.handleChange_fn := 1;
                                              App.handleSubmit_fn := 2 |})
                              App.initial)))) = 1.
Proof.
  assert (sets_wf (listeners (App.world App.initial))) as Hwf.
  { intros type set. simpl. by rewrite lookup_empty. }
  destruct (C10_mount_again_registers_once
              {| App.handleChange_fn := 1; App.handleSubmit_fn := 2 |}
              App.initial 2 (ADD_TODO "Buy milk") Hwf) as (_ & _ & Hok).
  destruct Hok as [_ Hcalls]; [simpl; lia |].
  exact Hcalls.
Defined.

End AppFacts.

(* ===================================================================== *)
(** ** Further properties of html-util.js and of the item view            *)
(* ===================================================================== *)

Section EscapingMore.
Import HtmlUtil Escaping.

Lemma string_length_app (a b : string) :
  String.length (a +:+ b) = String.length a + String.length b.
Proof.
  induction a as [|x a IH]; [done |].
  rewrite string_app_cons. simpl. by rewrite IH.
Qed.

Lemma string_app_nil_r (a : string) : a +:+ EmptyString = a.
Proof.
  induction a as [|x a IH]; [done |]. by rewrite string_app_cons, IH.
Qed.

Lemma escape_each_app (a b : string) :
  escape_each (a +:+ b) = escape_each a +:+ escape_each b.
Proof.
  induction a as [|x a IH]; [done |].
  rewrite string_app_cons. simpl. by rewrite IH, string_app_assoc.
Qed.

(** X1.  Escaping a concatenation is concatenating the escaped parts. *)
Theorem X1_escapeSpecialChars_app (a b : string) :
  escapeSpecialChars (a +:+ b)
  = escapeSpecialChars a +:+ escapeSpecialChars b.
Proof. rewrite !escapeSpecialChars_each. apply escape_each_app. Qed.

(** The cases of [entity_of]: one of the five characters, or another. *)
Lemma entity_of_cases a :
  (a = amp ∧ entity_of a = amp_entity) ∨
  (a = lt ∧ entity_of a = lt_entity) ∨
  (a = gt ∧ entity_of a = gt_entity) ∨
  (a = dquote ∧ entity_of a = quot_entity) ∨
  (a = squote ∧ entity_of a = apos_entity) ∨
  (special_char a = false ∧ entity_of a = str1 a).
Proof.
  unfold entity_of, special_char, markup_char.
  destruct (Ascii.eqb a amp) eqn:E1;
    [apply Ascii.eqb_eq in E1; subst; auto |].
  destruct (Ascii.eqb a lt) eqn:E2;
    [apply Ascii.eqb_eq in E2; subst; auto |].
  destruct (Ascii.eqb a gt) eqn:E3;
    [apply Ascii.eqb_eq in E3; subst; auto 6 |].
  destruct (Ascii.eqb a dquote) eqn:E4;
    [apply Ascii.eqb_eq in E4; subst; auto 6 |].
  destruct (Ascii.eqb a squote) eqn:E5;
    [apply Ascii.eqb_eq in E5; subst; auto 7 |].
  auto 7.
Qed.

Lemma special_char_amp_false a : special_char a = false → a ≠ amp.
Proof. intros Hs ->. discriminate. Qed.

(** The text of a character tells the character, also with more text
    after it. *)
Lemma entity_of_app_inj a b (x y : string) :
  entity_of a +:+ x = entity_of b +:+ y → a = b ∧ x = y.
Proof.
  destruct (entity_of_cases a) as [[-> ->]|[[-> ->]|[[-> ->]|[[-> ->]|
    [[-> ->]|[Ha ->]]]]]];
  destruct (entity_of_cases b) as [[-> ->]|[[-> ->]|[[-> ->]|[[-> ->]|
    [[-> ->]|[Hb ->]]]]]];
  intros Heq; try (injection Heq as ?; subst; done);
  try (injection Heq as Hc ?; exfalso;
       first [ by apply (special_char_amp_false _ Hb)
             | by apply (special_char_amp_false _ Ha) ]).
Qed.

(** X2.  [escapeSpecialChars] loses nothing: two strings with the same
    escaped form are the same string. *)
Theorem X2_escapeSpecialChars_injective (s1 s2 : string) :
  escapeSpecialChars s1 = escapeSpecialChars s2 → s1 = s2.
Proof.
  rewrite !escapeSpecialChars_each.
  revert s2. induction s1 as [|a s1 IH]; intros [|b s2]; simpl; try done.
  - destruct (entity_of_cases b) as [[_ ->]|[[_ ->]|[[_ ->]|[[_ ->]|
      [[_ ->]|[_ ->]]]]]]; discriminate.
  - destruct (entity_of_cases a) as [[_ ->]|[[_ ->]|[[_ ->]|[[_ ->]|
      [[_ ->]|[_ ->]]]]]]; discriminate.
  - intros Heq. apply entity_of_app_inj in Heq as [-> Heq].
    by rewrite (IH _ Heq).
Qed.

(** X2 on two strings that are the same. *)
Lemma X2_escapeSpecialChars_injective_witness :
  "a<b" = "a<b".
Proof. exact (X2_escapeSpecialChars_injective "a<b" "a<b" eq_refl). Defined.

Lemma entity_of_length a :
  1 ≤ String.length (entity_of a) ≤ 6 ∧
  (special_char a = true → 4 ≤ String.length (entity_of a)).
Proof.
  destruct (entity_of_cases a) as [[-> ->]|[[-> ->]|[[-> ->]|[[-> ->]|
    [[-> ->]|[Ha ->]]]]]]; simpl; split; try lia; try (intros _; lia).
  congruence.
Qed.

Lemma escape_each_length (s : string) :
  String.length s ≤ String.length (escape_each s) ≤ 6 * String.length s.
Proof.
  induction s as [|a s IH]; [simpl; lia |].
  simpl. rewrite string_length_app.
  destruct (entity_of_length a) as [? _]. lia.
Qed.

(** X3.  The escaped form is at least as long as the string and at most
    six times as long. *)
Theorem X3_escapeSpecialChars_length (s : string) :
  String.length s ≤ String.length (escapeSpecialChars s)
  ≤ 6 * String.length s.
Proof. rewrite escapeSpecialChars_each. apply escape_each_length. Qed.

Lemma entity_of_plain a :
  special_char a = false → entity_of a = str1 a.
Proof.
  intros Ha.
  destruct (entity_of_cases a) as [[-> _]|[[-> _]|[[-> _]|[[-> _]|
    [[-> _]|[_ ->]]]]]]; try discriminate. done.
Qed.

Lemma escape_each_fixed (s : string) :
  escape_each s = s
  ↔ string_forallb (λ c, negb (special_char c)) s = true.
Proof.
  induction s as [|a s IH]; [done |]. simpl. split.
  - intros Heq. destruct (special_char a) eqn:Ha.
    + exfalso.
      assert (String.length (entity_of a +:+ escape_each s)
              = String.length (String a s)) as Hlen by by rewrite Heq.
      rewrite string_length_app in Hlen. simpl in Hlen.
      destruct (entity_of_length a) as [_ H4]. specialize (H4 Ha).
      pose proof (escape_each_length s). lia.
    + rewrite (entity_of_plain a Ha) in Heq.
      injection Heq as Heq. simpl. by apply IH.
  - intros [Ha Hs]%andb_prop. apply negb_true_iff in Ha.
    rewrite (entity_of_plain a Ha). apply IH in Hs.
    unfold str1. rewrite string_app_cons, string_app_nil. by rewrite Hs.
Qed.

Lemma entity_of_keeps_special a :
  string_forallb (λ c, negb (special_char c)) (entity_of a)
  = negb (special_char a).
Proof.
  destruct (entity_of_cases a) as [[-> ->]|[[-> ->]|[[-> ->]|[[-> ->]|
    [[-> ->]|[Ha ->]]]]]]; try reflexivity.
  simpl. by rewrite Ha.
Qed.

Lemma escape_each_keeps_special (s : string) :
  string_forallb (λ c, negb (special_char c)) (escape_each s)
  = string_forallb (λ c, negb (special_char c)) s.
Proof.
  induction s as [|a s IH]; [done |].
  simpl. by rewrite string_forallb_app, entity_of_keeps_special, IH.
Qed.

(** X4.  [escapeSpecialChars] returns its argument unchanged exactly when
    the argument holds none of the five characters; and escaping what was
    escaped already gives the same text again exactly in that case: for
    any other string the second pass changes the text once more. *)
Theorem X4_escapeSpecialChars_fixed_points (s : string) :
  (escapeSpecialChars s = s
   ↔ string_forallb (λ c, negb (special_char c)) s = true) ∧
  (escapeSpecialChars (escapeSpecialChars s) = escapeSpecialChars s
   ↔ string_forallb (λ c, negb (special_char c)) s = true).
Proof.
  rewrite !escapeSpecialChars_each. split; [apply escape_each_fixed |].
  rewrite escape_each_fixed. by rewrite escape_each_keeps_special.
Qed.

Lemma count_char_app c (a b : string) :
  count_char c (a +:+ b) = count_char c a + count_char c b.
Proof.
  induction a as [|x a IH]; [done |].
  rewrite string_app_cons. simpl. rewrite IH. lia.
Qed.

Lemma count_char_absent c p (s : string) :
  p c = false → string_forallb p s = true → count_char c s = 0.
Proof.
  intros Hc. induction s as [|a s IH]; [done |].
  simpl. intros [Ha Hs]%andb_prop. rewrite (IH Hs).
  destruct (Ascii.eqb a c) eqn:E; [|done].
  apply Ascii.eqb_eq in E. congruence.
Qed.

(** The element of an entity, written out. *)
Lemma createElement_completed i t :
  TodoItemView.createElement {| id := i; title := t; completed := true |}
  = Some {| TodoItemView.html :=
              (TodoItemView.input_checkbox " checked"
                 +:+ TodoItemView.line 36 +:+ "<s>")
              +:+ escapeSpecialChars t
              +:+ ("</s>" +:+ TodoItemView.line 36
                     +:+ TodoItemView.button_and_close);
            TodoItemView.on_change := UPDATE_TODO i false;
            TodoItemView.on_click := DELETE_TODO i |}.
Proof. reflexivity. Qed.

Lemma createElement_active i t :
  TodoItemView.createElement {| id := i; title := t; completed := false |}
  = Some {| TodoItemView.html :=
              (TodoItemView.input_checkbox EmptyString
                 +:+ TodoItemView.line 36)
              +:+ escapeSpecialChars t
              +:+ (TodoItemView.line 36 +:+ TodoItemView.button_and_close);
            TodoItemView.on_change := UPDATE_TODO i true;
            TodoItemView.on_click := DELETE_TODO i |}.
Proof. reflexivity. Qed.

(** X5.  Whatever the title of an entity, the markup the item view makes
    holds as many of each of [<], [>], the double quote and the single
    quote as the markup for the empty title: the title adds no tag and no
    attribute. *)
Theorem X5_item_markup_tags_do_not_depend_on_title
    (i : Z) (t : string) (c : bool) (ch : ascii) :
  markup_char ch = true →
  ∃ el el0,
    TodoItemView.createElement {| id := i; title := t; completed := c |}
    = Some el ∧
    TodoItemView.createElement
      {| id := i; title := EmptyString; completed := c |} = Some el0 ∧
    count_char ch (TodoItemView.html el)
    = count_char ch (TodoItemView.html el0).
Proof.
  intros Hch.
  assert (∀ t', count_char ch (escapeSpecialChars t') = 0) as Ht.
  { intros t'. apply (count_char_absent ch (λ c, negb (markup_char c))).
    - by rewrite Hch.
    - apply escapeSpecialChars_no_markup. }
  destruct c.
  - rewrite !createElement_completed. eexists _, _.
    split; [reflexivity |]. split; [reflexivity |].
    cbn [TodoItemView.html]. by rewrite !count_char_app, !Ht.
  - rewrite !createElement_active. eexists _, _.
    split; [reflexivity |]. split; [reflexivity |].
    cbn [TodoItemView.html]. by rewrite !count_char_app, !Ht.
Qed.

(** X5 for the script title and the character [<]. *)
Lemma X5_item_markup_tags_do_not_depend_on_title_witness :
  ∃ el el0,
    TodoItemView.createElement
      {| id := 0; title := script_title; completed := true |} = Some el ∧
    TodoItemView.createElement
      {| id := 0; title := EmptyString; completed := true |} = Some el0 ∧
    count_char lt (TodoItemView.html el)
    = count_char lt (TodoItemView.html el0).
Proof.
  exact (X5_item_markup_tags_do_not_depend_on_title
           0 script_title true lt eq_refl).
Defined.

Lemma reduce_from_fill values acc i (rest : list string) :
  reduce_from (element_step values) acc (S i) rest
  = acc +:+ fill_from values i rest.
Proof.
  revert acc i. induction rest as [|str rest IH]; intros acc i; simpl.
  - by rewrite string_app_nil_r.
  - rewrite IH, element_step_inserted. simpl. rewrite Nat.sub_0_r.
    by rewrite !string_app_assoc.
Qed.

Lemma fill_from_ext v1 v2 i (rest : list string) :
  (∀ j, i ≤ j < i + length rest → values_at v1 j = values_at v2 j) →
  fill_from v1 i rest = fill_from v2 i rest.
Proof.
  revert i. induction rest as [|str rest IH]; intros i Hext; [done |].
  simpl. rewrite (Hext i) by (simpl; lia).
  rewrite (IH (S i)); [done |].
  intros j Hj. apply Hext. simpl. lia.
Qed.

Lemma values_at_take n values j :
  j < n → values_at (take n values) j = values_at values j.
Proof. intros Hj. unfold values_at. by rewrite lookup_take_lt. Qed.

Lemma values_at_pad values k j :
  values_at (values ++ replicate k VUndefined) j = values_at values j.
Proof.
  unfold values_at.
  destruct (decide (j < length values)) as [Hlt|Hge].
  - by rewrite lookup_app_l.
  - rewrite lookup_app_r by lia.
    rewrite (lookup_ge_None_2 values j) by lia. simpl.
    destruct (replicate k VUndefined !! (j - length values)) as [v|] eqn:Hv;
      [|done].
    apply lookup_replicate in Hv as [-> _]. done.
Qed.

(** X6.  [element] on a template with at least one static part returns
    the first part followed, for each further part in turn, by the text
    for the value of its place and that part.  Values beyond the places
    of the template are not read, and a place without a value is filled
    as [undefined] is.  Without any static part the [reduce] has nothing
    to start from and there is no result. *)
Theorem X6_element_fills_the_template
    (strings : list string) (values : list value) :
  (∀ first rest, strings = first :: rest →
     element strings values = Some (first +:+ fill_from values 0 rest)) ∧
  element strings (take (length strings - 1) values)
  = element strings values ∧
  (∀ k, element strings (values ++ replicate k VUndefined)
        = element strings values) ∧
  (strings = [] → element strings values = None).
Proof.
  assert (∀ vs first rest,
            element (first :: rest) vs
            = Some (first +:+ fill_from vs 0 rest)) as Hfill.
  { intros vs first rest. unfold element, reduce.
    by rewrite reduce_from_fill. }
  split_and!.
  - intros first rest ->. apply Hfill.
  - destruct strings as [|first rest]; [done |].
    rewrite !Hfill. do 2 f_equal. apply fill_from_ext.
    intros j Hj. apply values_at_take. simpl. lia.
  - intros k. destruct strings as [|first rest]; [done |].
    rewrite !Hfill. do 2 f_equal. apply fill_from_ext.
    intros j _. apply values_at_pad.
  - by intros ->.
Qed.

End EscapingMore.

(* ===================================================================== *)
(** ** Further properties of EventEmitter.js                              *)
(* ===================================================================== *)

Section EmitterMore.
Import EventEmitter Props.

Lemma emit_other type' (ls ls' : gmap string (list fnref)) :
  ls' !! type' = ls !! type' → emit type' ls' = emit type' ls.
Proof. intros Heq. unfold emit. by rewrite Heq. Qed.

Lemma removeEventListener_lookup_ne type type' listener
    (ls : gmap string (list fnref)) :
  type' ≠ type → removeEventListener type listener ls !! type' = ls !! type'.
Proof.
  intros Hne. rewrite removeEventListener_insert.
  destruct (ls !! type); [|done]. by rewrite lookup_insert_ne.
Qed.

(** X7.  Registering or removing a listener for one type leaves the
    listeners of every other type, and what [emit] of another type does,
    as they were. *)
Theorem X7_other_types_untouched
    (ls : gmap string (list fnref)) (type type' : string)
    (listener : fnref) :
  type' ≠ type →
  addEventListener type listener ls !! type' = ls !! type' ∧
  removeEventListener type listener ls !! type' = ls !! type' ∧
  emit type' (addEventListener type listener ls) = emit type' ls ∧
  emit type' (removeEventListener type listener ls) = emit type' ls.
Proof.
  intros Hne.
  assert (addEventListener type listener ls !! type' = ls !! type') as Hadd.
  { rewrite addEventListener_insert. by rewrite lookup_insert_ne. }
  pose proof (removeEventListener_lookup_ne type type' listener ls Hne)
    as Hrem.
  split_and!; [done | done | by apply emit_other | by apply emit_other].
Qed.

(** X7 for a listener of ["change"] on an emitter with a listener of
    ["submit"]. *)
Lemma X7_other_types_untouched_witness :
  emit "submit"
    (addEventListener "change" 3%positive {[ "submit" := [7%positive] ]})
  = [EvEmit "submit"; EvCall 7%positive].
Proof.
  destruct (X7_other_types_untouched
              {[ "submit" := [7%positive] ]} "change" "submit" 3%positive)
    as (_ & _ & -> & _); [done | reflexivity].
Defined.

(** X8.  [emit] calls the listeners in the order in which they were
    first registered: a listener that is new for the type is called
    after the ones that were there, and one that is registered again
    keeps its place. *)
Theorem X8_emit_follows_registration_order
    (ls : gmap string (list fnref)) (type : string) (listener : fnref) :
  emit type (addEventListener type listener ls)
  = emit type ls
    ++ (if decide (listener ∈ default [] (ls !! type)) then []
        else [EvCall listener]).
Proof.
  unfold emit. rewrite addEventListener_insert, lookup_insert_eq.
  unfold set_add.
  destruct (ls !! type) as [set|] eqn:Hset; simpl.
  - destruct (decide (listener ∈ set)).
    + by rewrite app_nil_r.
    + by rewrite fmap_app.
  - destruct (decide (listener ∈ [])) as [Hin|_]; [|done].
    by apply not_elem_of_nil in Hin.
Qed.

Lemma filter_EvCall listener (set : list fnref) :
  filter (λ e, e ≠ EvCall listener) ((λ l, EvCall l) <$> set)
  = (λ l, EvCall l) <$> set_delete listener set.
Proof.
  unfold set_delete. induction set as [|y set IH]; [done |].
  rewrite fmap_cons, !filter_cons.
  destruct (decide (y = listener)) as [->|Hne].
  - rewrite decide_False by (intros H; by apply H).
    rewrite (decide_False (P := listener ≠ listener)) by (intros H; by apply H).
    done.
  - rewrite decide_True by congruence.
    rewrite (decide_True (P := y ≠ listener)) by done.
    by rewrite fmap_cons, IH.
Qed.

Lemma calls_filter_out listener (evs : list event) :
  calls listener (filter (λ e, e ≠ EvCall listener) evs) = 0.
Proof.
  unfold calls. induction evs as [|e evs IH]; [done |].
  rewrite filter_cons. destruct (decide (e ≠ EvCall listener)) as [Hne|_].
  - by rewrite filter_cons, decide_False.
  - done.
Qed.

(** X9.  After [removeEventListener] of a listener, [emit] of the type
    makes the calls it made before except those of that listener, in the
    same order; the listener itself is not called any more. *)
Theorem X9_removed_listener_is_not_called
    (ls : gmap string (list fnref)) (type : string) (listener : fnref) :
  emit type (removeEventListener type listener ls)
  = filter (λ e, e ≠ EvCall listener) (emit type ls) ∧
  calls listener (emit type (removeEventListener type listener ls)) = 0.
Proof.
  assert (emit type (removeEventListener type listener ls)
          = filter (λ e, e ≠ EvCall listener) (emit type ls)) as Heq.
  { unfold emit. rewrite removeEventListener_insert.
    destruct (ls !! type) as [set|] eqn:Hset.
    - rewrite lookup_insert_eq, filter_cons, decide_True by done.
      by rewrite filter_EvCall.
    - rewrite Hset. by rewrite filter_cons, decide_True by done. }
  split; [done |]. rewrite Heq. apply calls_filter_out.
Qed.

(** X10.  Registering a listener that was not registered for the type
    and removing it again gives back the listeners of the type; the map
    is the one before, except that a type that had no entry now has an
    empty set, which [emit] treats as it treats no entry. *)
Theorem X10_subscribe_then_unsubscribe
    (ls : gmap string (list fnref)) (type : string) (listener : fnref) :
  listener ∉ default [] (ls !! type) →
  removeEventListener type listener (addEventListener type listener ls)
  = <[type := default [] (ls !! type)]> ls ∧
  emit type
    (removeEventListener type listener (addEventListener type listener ls))
  = emit type ls ∧
  (is_Some (ls !! type) →
   removeEventListener type listener (addEventListener type listener ls)
   = ls).
Proof.
  intros Hout.
  assert (removeEventListener type listener
            (addEventListener type listener ls)
          = <[type := default [] (ls !! type)]> ls) as Heq.
  { rewrite removeEventListener_insert, addEventListener_insert.
    rewrite lookup_insert_eq, insert_insert_eq. f_equal.
    unfold set_add. rewrite decide_False by done.
    unfold set_delete. rewrite filter_app, filter_cons.
    rewrite decide_False by (intros H; by apply H).
    rewrite app_nil_r. by apply set_delete_absent. }
  rewrite Heq. split_and!; [done | |].
  - unfold emit. rewrite lookup_insert_eq.
    by destruct (ls !! type).
  - intros [set Hset]. rewrite Hset. simpl. by apply insert_id.
Qed.

(** X10 on an emitter without any listener. *)
Lemma X10_subscribe_then_unsubscribe_witness :
  emit "change"
    (removeEventListener "change" 3%positive
       (addEventListener "change" 3%positive ∅))
  = emit "change" ∅.
Proof.
  destruct (X10_subscribe_then_unsubscribe ∅ "change" 3%positive)
    as (_ & Hemit & _); [|exact Hemit].
  rewrite lookup_empty. apply not_elem_of_nil.
Defined.

End EmitterMore.

(* ===================================================================== *)
(** ** Further properties of TodoListModel.js                             *)
(* ===================================================================== *)

Section ModelMore.
Import EventEmitter TodoListModel Props.

Lemma length_filter_unique {A} (f : A → option Z) (i : Z) (l : list A) :
  NoDup l →
  (∀ x y, x ∈ l → y ∈ l → f x = Some i → f y = Some i → x = y) →
  length (filter (λ x, f x ≠ Some i) l)
  + (if decide (i ∈ omap f l) then 1 else 0)
  = length l.
Proof.
  induction 1 as [|x l Hx Hl IH]; intros Huniq.
  { destruct (decide (i ∈ omap f [])) as [Hin|_]; [|done].
    by apply not_elem_of_nil in Hin. }
  assert (length (filter (λ x, f x ≠ Some i) l)
          + (if decide (i ∈ omap f l) then 1 else 0) = length l) as IH'.
  { apply IH. intros y z Hy Hz. apply Huniq; by apply list_elem_of_further. }
  rewrite filter_cons. destruct (decide (f x ≠ Some i)) as [Hne|Heq].
  - assert (i ∈ omap f (x :: l) ↔ i ∈ omap f l) as Hiff.
    { rewrite !list_elem_of_omap. split.
      - intros (y & Hy & Hfy). apply elem_of_cons in Hy as [->|Hy]; [done |].
        eauto.
      - intros (y & Hy & Hfy). exists y. split; [|done].
        by apply list_elem_of_further. }
    simpl length.
    destruct (decide (i ∈ omap f (x :: l))) as [H1|H1],
             (decide (i ∈ omap f l)) as [H2|H2]; try lia.
    + destruct H2. by apply Hiff.
    + destruct H1. by apply Hiff.
  - apply dec_stable in Heq.
    assert (i ∉ omap f l) as Hout.
    { intros (y & Hy & Hfy)%list_elem_of_omap.
      apply Hx. rewrite (Huniq x y); try done.
      - apply list_elem_of_here.
      - by apply list_elem_of_further. }
    assert (i ∈ omap f (x :: l)) as Hin.
    { apply list_elem_of_omap. exists x. split; [apply list_elem_of_here | done]. }
    rewrite decide_False in IH' by done.
    rewrite decide_True by done. simpl length. lia.
Qed.

(** X11.  In a state the program reaches (ids distinct, no entity twice
    in the container) [deleteTodo] takes away exactly one entity when the
    id is among the ids of the container, and none otherwise. *)
Theorem X11_deleteTodo_count (st : State) (i : Z) :
  inv st →
  getTotalCount (deleteTodo i st)
  + (if decide (i ∈ item_ids st) then 1 else 0)
  = getTotalCount st.
Proof.
  intros (_ & _ & Huniq & _ & Honce).
  unfold getTotalCount. fold (item_refs (deleteTodo i st)) (item_refs st).
  rewrite item_refs_deleteTodo. unfold item_ids.
  apply length_filter_unique; [done |].
  intros x y _ _. apply Huniq.
Qed.

(** X11 on the container after the additions of [A] and [B]. *)
Lemma X11_deleteTodo_count_witness :
  getTotalCount
    (deleteTodo 0 (run [ADD_TODO "A"; ADD_TODO "B"] App.initial_state))
  + (if decide (0%Z ∈ item_ids
                  (run [ADD_TODO "A"; ADD_TODO "B"] App.initial_state))
     then 1 else 0)
  = getTotalCount (run [ADD_TODO "A"; ADD_TODO "B"] App.initial_state).
Proof.
  apply X11_deleteTodo_count.
  apply (run_steps [ADD_TODO "A"; ADD_TODO "B"] App.initial_state).
  - exact inv_initial.
  - vm_compute. discriminate.
Defined.

(** X12.  Deleting the same id a second time changes the sequence no
    further, yet notifies again; and deletions of two ids leave the same
    sequence in either order. *)
Theorem X12_deleteTodo_twice_and_in_any_order (st : State) (i j : Z) :
  item_refs (deleteTodo i (deleteTodo i st)) = item_refs (deleteTodo i st) ∧
  notifications
    (events_since (deleteTodo i st) (deleteTodo i (deleteTodo i st))) = 1 ∧
  item_refs (deleteTodo i (deleteTodo j st))
  = item_refs (deleteTodo j (deleteTodo i st)).
Proof.
  rewrite !item_refs_deleteTodo.
  assert (∀ a b,
            filter (λ todo, id_of (deleteTodo b st) todo ≠ Some a)
                   (filter (λ todo, id_of st todo ≠ Some b) (item_refs st))
            = filter (λ todo, id_of st todo ≠ Some a ∧
                              id_of st todo ≠ Some b) (item_refs st)) as Hff.
  { intros a b. rewrite list_filter_filter. done. }
  split_and!.
  - rewrite Hff. apply list_filter_iff. tauto.
  - assert (events_since (deleteTodo i st) (deleteTodo i (deleteTodo i st))
            = one_change (deleteTodo i st)) as ->.
    { unfold deleteTodo at 1. by apply events_since_emitChange. }
    apply notifications_one_change.
  - rewrite !Hff. apply list_filter_iff. tauto.
Qed.

(** X13.  After [deleteTodo] of an id, [updateTodo] of that id finds
    nothing: it returns the state as it is and notifies nobody. *)
Theorem X13_update_after_delete_is_ignored (st : State) (i : Z) (c : bool) :
  updateTodo i c (deleteTodo i st) = deleteTodo i st.
Proof.
  apply updateTodo_none. intros todo.
  rewrite item_refs_deleteTodo, list_elem_of_filter.
  by intros [Hne _].
Qed.

Lemma set_completed_twice todoItem c st :
  objs (set_completed todoItem c (emitChange (set_completed todoItem c st)))
  = objs (set_completed todoItem c st).
Proof.
  simpl. apply alter_id. intros o Ho.
  apply lookup_alter_Some in Ho as [(_ & o0 & _ & ->)|[Hne _]]; [done |].
  done.
Qed.

Lemma updateTodo_again st i c :
  (updateTodo i c st = st ∧ updateTodo i c (updateTodo i c st) = st) ∨
  (∃ todo,
     updateTodo i c st = emitChange (set_completed todo c st) ∧
     updateTodo i c (updateTodo i c st)
     = emitChange (set_completed todo c
                     (emitChange (set_completed todo c st)))).
Proof.
  destruct (list_find (λ todo, id_of st todo = Some i)
                      (array_get (items st) st))
    as [[k todo]|] eqn:Hfind.
  - right. exists todo.
    assert (updateTodo i c st = emitChange (set_completed todo c st)) as H1.
    { unfold updateTodo. by rewrite Hfind. }
    split; [done |]. rewrite H1.
    set (st1 := emitChange (set_completed todo c st)).
    assert (list_find (λ todo0, id_of st1 todo0 = Some i)
                      (array_get (items st1) st1) = Some (k, todo)) as H2.
    { rewrite <- Hfind. apply list_find_ext. intros x.
      change (id_of st1 x) with (id_of (set_completed todo c st) x).
      by rewrite id_of_set_completed. }
    unfold updateTodo. by rewrite H2.
  - left.
    assert (updateTodo i c st = st) as H1.
    { unfold updateTodo. by rewrite Hfind. }
    by rewrite !H1.
Qed.

(** X14.  [updateTodo] does not look at the value that is there: a second
    call with the same id and the same [completed] changes no entity, and
    it notifies again just as the first call did (once if the id was
    found, not at all if it was not). *)
Theorem X14_updateTodo_again_changes_nothing_but_notifies
    (st : State) (i : Z) (c : bool) :
  let st1 := updateTodo i c st in
  let st2 := updateTodo i c st1 in
  objs st2 = objs st1 ∧
  item_refs st2 = item_refs st1 ∧
  events_since st1 st2 = events_since st st1.
Proof.
  intros st1 st2. subst st1 st2.
  split; [|split; [apply item_refs_updateTodo |]].
  - destruct (updateTodo_again st i c) as [[H1 H2]|(todo & H1 & H2)].
    + by rewrite H2, H1.
    + rewrite H2, H1. apply set_completed_twice.
  - destruct (updateTodo_again st i c) as [[H1 H2]|(todo & H1 & H2)].
    + by rewrite H2, H1.
    + rewrite H2, H1.
      rewrite !events_since_emitChange by done. done.
Qed.

(** X15.  The array given to the constructor is the container's own:
    [addTodo] pushes on that very array, so whoever passed it sees the
    new entity in it.  [deleteTodo] leaves that array as it is and moves
    the container to a new one. *)
Theorem X15_constructor_keeps_the_array_it_is_given
    (st : State) (r : loc) (todoItem : loc) (this : TodoItemModel) (i : Z) :
  is_Some (arrs st !! r) →
  objs st !! todoItem = Some this →
  String.length (title this) ≠ 0 →
  let st0 := constructor r st in
  getTodoItems st0 = r ∧
  array_get r (addTodo todoItem st0) = array_get r st ++ [todoItem] ∧
  array_get r (deleteTodo i (addTodo todoItem st0))
  = array_get r st ++ [todoItem] ∧
  getTodoItems (deleteTodo i (addTodo todoItem st0)) ≠ r.
Proof.
  intros Hr Hobj Hlen st0.
  assert (addTodo todoItem st0
          = emitChange (array_push (items st0) todoItem st0)) as Hadd
    by by eapply addTodo_accept.
  assert (array_get r (addTodo todoItem st0) = array_get r st ++ [todoItem])
    as Hpush.
  { rewrite Hadd.
    change (array_get r (emitChange (array_push (items st0) todoItem st0)))
      with (array_get r (array_push r todoItem st)).
    by apply array_get_push. }
  assert (r ∈ dom (arrs (addTodo todoItem st0))) as Hdom.
  { rewrite Hadd. simpl. apply elem_of_dom.
    rewrite lookup_alter_eq. destruct Hr as [a ->]. by eexists. }
  split_and!; [done | done | |].
  - rewrite <- Hpush. unfold array_get, deleteTodo. simpl.
    rewrite lookup_insert_ne; [done |].
    intros Heq. apply (fresh_array_new (addTodo todoItem st0)).
    by rewrite Heq.
  - unfold getTodoItems, deleteTodo. simpl.
    intros Heq. apply (fresh_array_new (addTodo todoItem st0)).
    by rewrite Heq.
Qed.

(** X15 for the array the application starts with and a new entity. *)
Lemma X15_constructor_keeps_the_array_it_is_given_witness :
  array_get 1%positive
    (addTodo 1%positive
       (constructor 1%positive
          (new_TodoItemModel "A" false App.initial_state).2))
  = [1%positive].
Proof.
  destruct (X15_constructor_keeps_the_array_it_is_given
              (new_TodoItemModel "A" false App.initial_state).2
              1%positive 1%positive
              {| id := 0; title := "A"; completed := false |} 0)
    as (_ & Hpush & _); [by eexists | reflexivity | simpl; lia |].
  exact Hpush.
Defined.

End ModelMore.

(* ===================================================================== *)
(** ** Further properties of TodoItemModel.js and app.js                  *)
(* ===================================================================== *)

Section ControllerMore.
Import EventEmitter TodoListModel Props.

Lemma todoIdx_handleAdd title st :
  todoIdx (App.handleAdd title st) = js_succ (todoIdx st).
Proof.
  unfold App.handleAdd, new_TodoItemModel, addTodo. simpl.
  rewrite lookup_insert_eq. by destruct (isEmptyTitle _).
Qed.

Lemma todoIdx_dispatch a st :
  todoIdx (App.dispatch a st)
  = if is_add a then js_succ (todoIdx st) else todoIdx st.
Proof.
  destruct a as [title|i c|i]; simpl.
  - apply todoIdx_handleAdd.
  - apply todoIdx_updateTodo.
  - done.
Qed.

Lemma handleAdd_empty st :
  App.handleAdd EmptyString st
  = (new_TodoItemModel EmptyString false st).2.
Proof.
  unfold App.handleAdd.
  destruct (new_TodoItemModel_spec EmptyString false st) as (_ & Hthis & _).
  destruct (new_TodoItemModel EmptyString false st) as [this st1] eqn:Hnew.
  simpl in *. by eapply addTodo_reject.
Qed.

(** X16.  The constructor takes an id for every entity it makes, also
    for one that [addTodo] then turns away: a submission with an empty
    title leaves the container and the trace as they are and moves the
    counter on by one.  So, while the counter counts exactly, after a run
    of the controller it has moved on by the number of additions in the
    run, accepted or not. *)
Theorem X16_every_addition_takes_an_id (st : State) (acts : list action) :
  (todoIdx st + Z.of_nat (length acts) ≤ 2 ^ 53)%Z →
  todoIdx (run acts st)
  = (todoIdx st + Z.of_nat (length (filter (λ a, is_add a = true) acts)))%Z ∧
  ((todoIdx st < 2 ^ 53)%Z →
   todoIdx (App.handleAdd EmptyString st) = (todoIdx st + 1)%Z ∧
   item_refs (App.handleAdd EmptyString st) = item_refs st ∧
   events_since st (App.handleAdd EmptyString st) = []).
Proof.
  intros Hbound. split.
  - revert st Hbound. induction acts as [|a acts IH]; intros st Hbound.
    { simpl. lia. }
    rewrite length_cons in Hbound.
    unfold run. cbn [foldl]. fold (run acts (App.dispatch a st)).
    assert (todoIdx (App.dispatch a st)
            = if is_add a then (todoIdx st + 1)%Z else todoIdx st) as Hstep.
    { rewrite todoIdx_dispatch. destruct (is_add a); [|done].
      apply js_succ_exact. lia. }
    rewrite IH by (rewrite Hstep; destruct (is_add a); lia).
    rewrite Hstep, filter_cons.
    destruct (is_add a) eqn:Ha.
    + rewrite decide_True by done. rewrite length_cons. lia.
    + rewrite decide_False by done. lia.
  - intros Hidx. split_and!.
    + rewrite todoIdx_handleAdd. by apply js_succ_exact.
    + by rewrite handleAdd_empty.
    + rewrite handleAdd_empty. unfold events_since. simpl.
      by rewrite drop_all.
Qed.

(** X16 on the application as it starts: of three submissions, one with
    an empty title, each takes an id. *)
Lemma X16_every_addition_takes_an_id_witness :
  todoIdx (run [ADD_TODO "A"; ADD_TODO EmptyString; ADD_TODO "B"]
               App.initial_state) = 3%Z.
Proof.
  destruct (X16_every_addition_takes_an_id App.initial_state
              [ADD_TODO "A"; ADD_TODO EmptyString; ADD_TODO "B"])
    as [Hrun _]; [vm_compute; discriminate |].
  exact Hrun.
Defined.

(** X17.  At 2^53 the counter does not move any more ([todoIdx++] rounds
    back to 2^53): two entities made one after the other there are two
    different entities of the container with the same id. *)
Theorem X17_ids_repeat_once_the_counter_is_stuck
    (st : State) (title1 title2 : string) :
  items_allocated st →
  todoIdx st = (2 ^ 53)%Z →
  String.length title1 ≠ 0 →
  String.length title2 ≠ 0 →
  let st2 := App.handleAdd title2 (App.handleAdd title1 st) in
  ∃ l1 l2,
    l1 ≠ l2 ∧
    item_refs st2 = item_refs st ++ [l1; l2] ∧
    id_of st2 l1 = Some (2 ^ 53)%Z ∧
    id_of st2 l2 = Some (2 ^ 53)%Z ∧
    todoIdx st2 = (2 ^ 53)%Z.
Proof.
  intros Halloc Hidx Hlen1 Hlen2 st2.
  destruct (handleAdd_spec title1 st Halloc)
    as (Hnone1 & Hids1 & Hidx1 & Hrefs1 & Halloc1).
  set (st1 := App.handleAdd title1 st) in *.
  destruct (handleAdd_spec title2 st1 Halloc1)
    as (Hnone2 & Hids2 & Hidx2 & Hrefs2 & _).
  fold st2 in Hids2, Hidx2, Hrefs2.
  set (l1 := fresh (dom (objs st))) in *.
  set (l2 := fresh (dom (objs st1))) in *.
  assert (js_succ (2 ^ 53) = (2 ^ 53)%Z) as Hstuck by done.
  rewrite Hidx, Hstuck in Hidx1. rewrite Hidx1, Hstuck in Hidx2.
  rewrite decide_False in Hrefs1 by done.
  rewrite decide_False in Hrefs2 by done.
  assert (id_of st1 l1 = Some (2 ^ 53)%Z) as Hl1.
  { rewrite Hids1, decide_True by done. by rewrite Hidx. }
  assert (l1 ≠ l2) as Hne by congruence.
  exists l1, l2. split_and!; [done | | | | done].
  - rewrite Hrefs2, Hrefs1. by rewrite <- app_assoc.
  - rewrite Hids2, decide_False by done. done.
  - rewrite Hids2, decide_True by done. by rewrite Hidx1.
Qed.

(** X17 on the starting state with the counter put at 2^53. *)
Lemma X17_ids_repeat_once_the_counter_is_stuck_witness :
  ∃ l1 l2,
    l1 ≠ l2 ∧
    item_refs (App.handleAdd "B"
                 (App.handleAdd "A"
                    (set_todoIdx (2 ^ 53) App.initial_state)))
    = item_refs (set_todoIdx (2 ^ 53) App.initial_state) ++ [l1; l2] ∧
    id_of (App.handleAdd "B"
             (App.handleAdd "A" (set_todoIdx (2 ^ 53) App.initial_state)))
          l1 = Some (2 ^ 53)%Z ∧
    id_of (App.handleAdd "B"
             (App.handleAdd "A" (set_todoIdx (2 ^ 53) App.initial_state)))
          l2 = Some (2 ^ 53)%Z ∧
    todoIdx (App.handleAdd "B"
               (App.handleAdd "A" (set_todoIdx (2 ^ 53) App.initial_state)))
    = (2 ^ 53)%Z.
Proof.
  apply (X17_ids_repeat_once_the_counter_is_stuck
           (set_todoIdx (2 ^ 53) App.initial_state) "A" "B");
    [by eexists | reflexivity | simpl; lia | simpl; lia].
Defined.

End ControllerMore.

(* ===================================================================== *)
(** ** From the views back to the model                                   *)
(* ===================================================================== *)

Section ViewMore.
Import EventEmitter TodoListModel Props.

Lemma createElement_actions this el :
  TodoItemView.createElement this = Some el →
  TodoItemView.on_change el = UPDATE_TODO (id this) (negb (completed this)) ∧
  TodoItemView.on_click el = DELETE_TODO (id this).
Proof.
  destruct this as [i t c]. destruct c.
  - rewrite createElement_completed. by intros [= <-].
  - rewrite createElement_active. by intros [= <-].
Qed.

Lemma id_of_Some st l this : objs st !! l = Some this → id_of st l = Some (id this).
Proof. intros Hobj. unfold id_of. by rewrite Hobj. Qed.

(** With distinct ids, [updateTodo] of the id of an entity of the
    container finds that entity. *)
Lemma updateTodo_unique st l this c :
  ids_unique st → l ∈ item_refs st → objs st !! l = Some this →
  updateTodo (id this) c st = emitChange (set_completed l c st).
Proof.
  intros Huniq Hin Hobj. pose proof (id_of_Some _ _ _ Hobj) as Hid.
  unfold updateTodo.
  destruct (list_find _ _) as [[k todo]|] eqn:Hfind.
  - apply list_find_Some in Hfind as (_ & Htodo & _).
    by rewrite (Huniq todo l (id this) Htodo Hid).
  - exfalso. apply list_find_None in Hfind.
    eapply Forall_forall in Hfind; [|exact Hin]. done.
Qed.

Lemma objs_set_completed st l this c :
  objs st !! l = Some this →
  objs (set_completed l c st)
  = <[l := {| id := id this; title := title this; completed := c |}]>
      (objs st).
Proof.
  intros Hobj. simpl. apply map_eq. intros k.
  destruct (decide (l = k)) as [<-|Hne].
  - by rewrite lookup_alter_eq, lookup_insert_eq, Hobj.
  - by rewrite lookup_alter_ne, lookup_insert_ne.
Qed.

Lemma ids_unique_set_completed st l c :
  ids_unique st → ids_unique (emitChange (set_completed l c st)).
Proof.
  intros Huniq l1 l2 i.
  change (id_of (emitChange (set_completed l c st)) l1)
    with (id_of (set_completed l c st) l1).
  change (id_of (emitChange (set_completed l c st)) l2)
    with (id_of (set_completed l c st) l2).
  rewrite !id_of_set_completed. apply Huniq.
Qed.

(** X18.  The checkbox of an item is wired to its entity: in a state with
    distinct ids, what the [change] listener of the element made for an
    entity of the container sends, once the controller has passed it on,
    sets [completed] of that entity to the opposite value; no other
    entity and no place of the sequence changes, and one notification
    follows. *)
Theorem X18_checkbox_toggles_its_entity
    (st : State) (l : loc) (this : TodoItemModel)
    (el : TodoItemView.ItemElement) :
  ids_unique st →
  l ∈ item_refs st →
  objs st !! l = Some this →
  TodoItemView.createElement this = Some el →
  let st' := App.dispatch (TodoItemView.on_change el) st in
  objs st'
  = <[l := {| id := id this; title := title this;
              completed := negb (completed this) |}]> (objs st) ∧
  item_refs st' = item_refs st ∧
  events_since st st' = one_change st.
Proof.
  intros Huniq Hin Hobj Hel st'. subst st'.
  destruct (createElement_actions _ _ Hel) as [-> _]. simpl.
  unfold App.handleUpdate.
  rewrite (updateTodo_unique st l this _ Huniq Hin Hobj).
  split_and!.
  - change (objs (emitChange (set_completed l (negb (completed this)) st)))
      with (objs (set_completed l (negb (completed this)) st)).
    by apply objs_set_completed.
  - done.
  - by apply events_since_emitChange.
Qed.

(** X18 on the container with the one entity [Buy milk]. *)
Lemma X18_checkbox_toggles_its_entity_witness :
  completed <$>
    objs (App.dispatch (UPDATE_TODO 0 true)
            (App.handleAdd "Buy milk" App.initial_state)) !! 1%positive
  = Some true.
Proof.
  assert (ids_unique (App.handleAdd "Buy milk" App.initial_state)) as Huniq.
  { apply (inv_handleAdd "Buy milk" App.initial_state inv_initial).
    vm_compute. reflexivity. }
  destruct (X18_checkbox_toggles_its_entity
              (App.handleAdd "Buy milk" App.initial_state) 1%positive
              {| id := 0; title := "Buy milk"; completed := false |}
              _ Huniq ltac:(vm_compute; apply list_elem_of_here)
              eq_refl (createElement_active 0 "Buy milk"))
    as (Hobjs & _).
  cbn [TodoItemView.on_change] in Hobjs. rewrite Hobjs.
  by rewrite lookup_insert_eq.
Defined.

(** X19.  The delete button of an item is wired to its entity: in a
    state with distinct ids and no entity twice in the container, what
    the [click] listener of the element made for an entity of the
    container sends takes exactly that entity out of the sequence; the
    count is one less and no entity object changes. *)
Theorem X19_delete_button_removes_its_entity
    (st : State) (l : loc) (this : TodoItemModel)
    (el : TodoItemView.ItemElement) :
  ids_unique st →
  items_once st →
  l ∈ item_refs st →
  objs st !! l = Some this →
  TodoItemView.createElement this = Some el →
  let st' := App.dispatch (TodoItemView.on_click el) st in
  item_refs st' = filter (λ x, x ≠ l) (item_refs st) ∧
  (l ∉ item_refs st') ∧
  getTotalCount st' + 1 = getTotalCount st ∧
  objs st' = objs st.
Proof.
  intros Huniq Honce Hin Hobj Hel st'. subst st'.
  destruct (createElement_actions _ _ Hel) as [_ ->]. simpl.
  unfold App.handleDelete.
  pose proof (id_of_Some _ _ _ Hobj) as Hid.
  assert (item_refs (deleteTodo (id this) st)
          = filter (λ x, x ≠ l) (item_refs st)) as Hrefs.
  { rewrite item_refs_deleteTodo. apply list_filter_iff. intros x. split.
    - intros Hne ->. done.
    - intros Hne Hx. apply Hne. by eapply Huniq. }
  split_and!; [done | | | done].
  - rewrite Hrefs, list_elem_of_filter. by intros [Hne _].
  - unfold getTotalCount.
    fold (item_refs (deleteTodo (id this) st)) (item_refs st).
    rewrite item_refs_deleteTodo.
    pose proof (length_filter_unique (id_of st) (id this) (item_refs st)
                  Honce) as Hlen.
    rewrite decide_True in Hlen.
    + apply Hlen. intros x y _ _. apply Huniq.
    + apply list_elem_of_omap. by exists l.
Qed.

(** X19 on the container after the additions of [A] and [B]. *)
Lemma X19_delete_button_removes_its_entity_witness :
  item_refs (App.dispatch (DELETE_TODO 0)
               (run [ADD_TODO "A"; ADD_TODO "B"] App.initial_state))
  = filter (λ x, x ≠ 1%positive)
      (item_refs (run [ADD_TODO "A"; ADD_TODO "B"] App.initial_state)).
Proof.
  destruct (run_steps [ADD_TODO "A"; ADD_TODO "B"] App.initial_state
              inv_initial ltac:(vm_compute; discriminate))
    as ((_ & _ & Huniq & _ & Honce) & _).
  destruct (X19_delete_button_removes_its_entity
              (run [ADD_TODO "A"; ADD_TODO "B"] App.initial_state) 1%positive
              {| id := 0; title := "A"; completed := false |}
              _ Huniq Honce ltac:(vm_compute; apply list_elem_of_here)
              eq_refl (createElement_active 0 "A"))
    as (Hrefs & _).
  exact Hrefs.
Defined.

(** X20.  Two clicks on the checkbox of an item, each on the element
    rendered from the entity as it is at that time, give back the entity
    objects there were: the second click undoes the first. *)
Theorem X20_two_toggles_restore_the_entities
    (st : State) (l : loc) (this : TodoItemModel)
    (el el1 : TodoItemView.ItemElement) :
  ids_unique st →
  l ∈ item_refs st →
  objs st !! l = Some this →
  TodoItemView.createElement this = Some el →
  let st1 := App.dispatch (TodoItemView.on_change el) st in
  let this1 := {| id := id this; title := title this;
                  completed := negb (completed this) |} in
  TodoItemView.createElement this1 = Some el1 →
  let st2 := App.dispatch (TodoItemView.on_change el1) st1 in
  objs st1 !! l = Some this1 ∧
  objs st2 = objs st ∧
  item_refs st2 = item_refs st.
Proof.
  intros Huniq Hin Hobj Hel st1 this1 Hel1 st2.
  destruct (createElement_actions _ _ Hel) as [Hch _].
  destruct (createElement_actions _ _ Hel1) as [Hch1 _].
  assert (st1 = emitChange (set_completed l (negb (completed this)) st))
    as Hst1.
  { unfold st1. rewrite Hch. simpl. unfold App.handleUpdate.
    by apply updateTodo_unique. }
  assert (objs st1 = <[l := this1]> (objs st)) as Hobjs1.
  { rewrite Hst1.
    change (objs (emitChange (set_completed l (negb (completed this)) st)))
      with (objs (set_completed l (negb (completed this)) st)).
    by apply objs_set_completed. }
  assert (objs st1 !! l = Some this1) as Hobj1
    by by rewrite Hobjs1, lookup_insert_eq.
  assert (ids_unique st1) as Huniq1
    by (rewrite Hst1; by apply ids_unique_set_completed).
  assert (item_refs st1 = item_refs st) as Hrefs1 by by rewrite Hst1.
  assert (st2 = emitChange (set_completed l (negb (completed this1)) st1))
    as Hst2.
  { unfold st2. rewrite Hch1.
    change (App.dispatch (UPDATE_TODO (id this1) (negb (completed this1))) st1)
      with (updateTodo (id this1) (negb (completed this1)) st1).
    apply updateTodo_unique; [done | by rewrite Hrefs1 | done]. }
  split_and!; [done | |].
  - rewrite Hst2.
    change (objs (emitChange (set_completed l (negb (completed this1)) st1)))
      with (objs (set_completed l (negb (completed this1)) st1)).
    rewrite (objs_set_completed st1 l this1 _ Hobj1).
    rewrite Hobjs1, insert_insert_eq. unfold this1. simpl.
    rewrite negb_involutive. apply insert_id. by destruct this.
  - by rewrite Hst2.
Qed.

(** X20 on the container with the one entity [Buy milk]. *)
Lemma X20_two_toggles_restore_the_entities_witness :
  objs (App.dispatch (UPDATE_TODO 0 false)
          (App.dispatch (UPDATE_TODO 0 true)
             (App.handleAdd "Buy milk" App.initial_state)))
  = objs (App.handleAdd "Buy milk" App.initial_state).
Proof.
  assert (ids_unique (App.handleAdd "Buy milk" App.initial_state)) as Huniq.
  { apply (inv_handleAdd "Buy milk" App.initial_state inv_initial).
    vm_compute. reflexivity. }
  destruct (X20_two_toggles_restore_the_entities
              (App.handleAdd "Buy milk" App.initial_state) 1%positive
              {| id := 0; title := "Buy milk"; completed := false |}
              _ _ Huniq ltac:(vm_compute; apply list_elem_of_here)
              eq_refl (createElement_active 0 "Buy milk")
              (createElement_completed 0 "Buy milk"))
    as (_ & Hobjs & _).
  exact Hobjs.
Defined.

End ViewMore.

(* ===================================================================== *)
(** ** Further properties of app.js                                       *)
(* ===================================================================== *)

Section AppMore.
Import EventEmitter TodoListModel Props.

Lemma omap_live_Forall2 {A B} (f : A → option B) (l : list A) :
  (∀ x, x ∈ l → is_Some (f x)) →
  Forall2 (λ x y, f x = Some y) l (omap f l).
Proof.
  induction l as [|x l IH]; intros Hlive; [constructor |].
  destruct (Hlive x) as [y Hy]; [apply list_elem_of_here |].
  simpl. rewrite Hy. constructor; [done |].
  apply IH. intros z Hz. apply Hlive. by apply list_elem_of_further.
Qed.

(** X21.  When every place of the sequence holds an entity of the store,
    [#handleChange] renders as many children as the number it writes in
    the counter, which is [getTotalCount()]; the k-th child is the
    element of the k-th entity. *)
Theorem X21_rendered_children_match_the_count (st : State) :
  items_live st →
  ∃ el,
    (App.handleChange st).1 = Some el ∧
    length (TodoListView.children el) = (App.handleChange st).2 ∧
    (App.handleChange st).2 = getTotalCount st ∧
    (∀ k l this,
       item_refs st !! k = Some l → objs st !! l = Some this →
       TodoItemView.createElement this
       = TodoListView.children el !! k).
Proof.
  intros Hlive.
  assert (Forall2 (λ l this, objs st !! l = Some this)
            (item_refs st) (App.read_array st (items st))) as Hread.
  { apply omap_live_Forall2. intros l Hl.
    destruct (Hlive l Hl) as [i Hi]. unfold id_of in Hi.
    by destruct (objs st !! l). }
  unfold App.handleChange, TodoListView.createElement, getTodoItems.
  destruct (mapM TodoItemView.createElement (App.read_array st (items st)))
    as [kids|] eqn:Hkids.
  - apply mapM_Some in Hkids. eexists. cbn.
    split; [reflexivity |].
    split_and!.
    + cbn [TodoListView.children].
      rewrite <- (Forall2_length _ _ _ Hkids).
      unfold getTotalCount. fold (item_refs st).
      by rewrite <- (Forall2_length _ _ _ Hread).
    + done.
    + cbn [TodoListView.children]. intros k l this Hk Hobj.
      destruct (Forall2_lookup_l _ _ _ _ _ Hread Hk) as (this' & Hk' & Hobj').
      assert (this' = this) as -> by congruence.
      destruct (Forall2_lookup_l _ _ _ _ _ Hkids Hk') as (child & -> & ->).
      done.
  - exfalso. apply eq_None_not_Some in Hkids. apply Hkids.
    apply mapM_is_Some. apply Forall_forall.
    intros todoItem _. apply createElement_is_Some.
Qed.

(** X21 on the container after the additions of [A] and [B]. *)
Lemma X21_rendered_children_match_the_count_witness :
  ∃ el,
    (App.handleChange
       (run [ADD_TODO "A"; ADD_TODO "B"] App.initial_state)).1 = Some el ∧
    length (TodoListView.children el) = 2.
Proof.
  destruct (run_steps [ADD_TODO "A"; ADD_TODO "B"] App.initial_state
              inv_initial ltac:(vm_compute; discriminate))
    as ((_ & _ & _ & Hlive & _) & _).
  destruct (X21_rendered_children_match_the_count _ Hlive)
    as (el & Hel & Hlen & _).
  exists el. split; [exact Hel |]. rewrite Hlen. reflexivity.
Defined.

Lemma notifications_app (a b : list event) :
  notifications (a ++ b) = notifications a + notifications b.
Proof. unfold notifications. by rewrite filter_app, length_app. Qed.

(** What one action adds to the trace: nothing, or one notification. *)
Lemma dispatch_trace a st :
  ∃ evs, trace (App.dispatch a st) = trace st ++ evs ∧
         (evs = [] ∨ evs = one_change st).
Proof.
  destruct a as [title|i c|i]; simpl.
  - unfold App.handleAdd.
    destruct (new_TodoItemModel_spec title false st)
      as (_ & Hthis & _ & _ & _ & _ & Hls & Htr).
    destruct (new_TodoItemModel title false st) as [this st1] eqn:Hnew.
    simpl in Hthis, Hls, Htr.
    destruct (decide (String.length title = 0)) as [Hlen|Hlen].
    + rewrite (addTodo_reject st1 this _ Hthis Hlen).
      exists []. rewrite app_nil_r. auto.
    + rewrite (addTodo_accept st1 this _ Hthis Hlen).
      exists (one_change st). split; [|auto].
      simpl. rewrite Htr, emit_change. unfold one_change, change_listeners.
      simpl. by rewrite Hls.
  - unfold App.handleUpdate.
    destruct (updateTodo_cases st i c) as [->|[todo ->]].
    + exists []. rewrite app_nil_r. auto.
    + exists (one_change st). split; [|auto].
      simpl. by rewrite emit_change.
  - exists (one_change st). split; [|auto].
    unfold App.handleDelete. simpl. by rewrite emit_change.
Qed.

Lemma run_trace acts st :
  ∃ evs, trace (run acts st) = trace st ++ evs ∧
         notifications evs ≤ length acts.
Proof.
  revert st. induction acts as [|a acts IH]; intros st.
  { exists []. by rewrite app_nil_r. }
  unfold run. cbn [foldl]. fold (run acts (App.dispatch a st)).
  destruct (dispatch_trace a st) as (evs1 & Htr1 & Hevs1).
  destruct (IH (App.dispatch a st)) as (evs2 & Htr2 & Hevs2).
  exists (evs1 ++ evs2). split.
  - by rewrite Htr2, Htr1, app_assoc.
  - rewrite notifications_app, length_cons.
    destruct Hevs1 as [->| ->].
    + simpl. change (notifications []) with 0. lia.
    + rewrite notifications_one_change. lia.
Qed.

(** X22.  The trace only grows, and an action of the controller makes at
    most one ["change"] notification: after a run there are at most as
    many notifications as there were actions. *)
Theorem X22_at_most_one_notification_per_action
    (st : State) (acts : list action) :
  trace st `prefix_of` trace (run acts st) ∧
  notifications (events_since st (run acts st)) ≤ length acts.
Proof.
  destruct (run_trace acts st) as (evs & Htr & Hevs).
  split.
  - rewrite Htr. by apply prefix_app_r.
  - unfold events_since. by rewrite Htr, drop_app_length.
Qed.

(** X23.  [#handleSubmit] always empties the input.  A second submission
    straight after the first therefore finds an empty title: it adds
    nothing and notifies nobody. *)
Theorem X23_submit_twice_adds_once (s : App.AppState) :
  let s1 := App.handleSubmit s in
  let s2 := App.handleSubmit s1 in
  App.input_value s1 = EmptyString ∧
  App.form_submit s2 = App.form_submit s ∧
  item_refs (App.world s2) = item_refs (App.world s1) ∧
  events_since (App.world s1) (App.world s2) = [] ∧
  todoIdx (App.world s2) = js_succ (js_succ (todoIdx (App.world s))).
Proof.
  intros s1 s2. subst s1 s2. simpl.
  rewrite handleAdd_empty. split_and!; try done.
  - unfold events_since. simpl. by rewrite drop_all.
  - simpl. by rewrite todoIdx_handleAdd.
Qed.

Lemma calls_one_change_absent st l :
  l ∉ change_listeners st → calls l (one_change st) = 0.
Proof.
  intros Hout. unfold one_change, calls.
  rewrite filter_cons, decide_False by done.
  fold (calls l ((λ x, EvCall x) <$> change_listeners st)).
  rewrite calls_EvCall. apply length_zero_iff_nil.
  induction (change_listeners st) as [|y ls IH]; [done |].
  apply not_elem_of_cons in Hout as [Hne Hout].
  rewrite filter_cons, decide_False by done. by apply IH.
Qed.

Lemma unmount_unregisters app s :
  App.handleChange_fn app ∉ change_listeners (App.world (App.unmount app s)).
Proof.
  unfold change_listeners. simpl. rewrite removeEventListener_insert.
  destruct (listeners (App.world s) !! "change") as [set|] eqn:Hset.
  - rewrite lookup_insert_eq. simpl. unfold set_delete.
    rewrite list_elem_of_filter. by intros [Hne _].
  - rewrite Hset. apply not_elem_of_nil.
Qed.

(** X24.  After [unmount], whatever the state before, no action of the
    controller calls [#handleChange], and [#handleSubmit] is not among
    the [submit] listeners of the form. *)
Theorem X24_unmount_stops_the_rendering
    (app : App.App) (s : App.AppState) (a : action) :
  let s' := App.unmount app s in
  calls (App.handleChange_fn app)
    (events_since (App.world s') (App.dispatch a (App.world s'))) = 0 ∧
  (App.handleSubmit_fn app ∉ App.form_submit s').
Proof.
  intros s'. split.
  - destruct (dispatch_trace a (App.world s')) as (evs & Htr & Hevs).
    unfold events_since. rewrite Htr, drop_app_length.
    destruct Hevs as [->| ->]; [done |].
    apply calls_one_change_absent. apply unmount_unregisters.
  - simpl. unfold set_delete. rewrite list_elem_of_filter.
    by intros [Hne _].
Qed.

Lemma set_listeners_same st : set_listeners (listeners st) st = st.
Proof. by destruct st. Qed.

(** X25.  [unmount] on a controller that is not mounted changes nothing;
    and [mount] followed by [unmount] gives back the listeners of
    ["change"] and of the form that were there before. *)
Theorem X25_unmount_without_mount_and_after_mount
    (app : App.App) (s : App.AppState) :
  App.handleChange_fn app ∉ change_listeners (App.world s) →
  App.handleSubmit_fn app ∉ App.form_submit s →
  App.unmount app s = s ∧
  change_listeners (App.world (App.unmount app (App.mount app s)))
  = change_listeners (App.world s) ∧
  App.form_submit (App.unmount app (App.mount app s)) = App.form_submit s.
Proof.
  intros Hchange Hsubmit. split_and!.
  - destruct s as [st fs iv]. unfold App.unmount. simpl in *.
    rewrite (set_delete_absent _ fs) by done. f_equal.
    unfold offChange. rewrite removeEventListener_insert.
    unfold change_listeners in Hchange.
    destruct (listeners st !! "change") as [set|] eqn:Hset.
    + simpl in Hchange. rewrite set_delete_absent by done.
      rewrite insert_id by done. apply set_listeners_same.
    + apply set_listeners_same.
  - unfold change_listeners in *. simpl.
    rewrite removeEventListener_insert, addEventListener_insert.
    rewrite lookup_insert_eq, insert_insert_eq, lookup_insert_eq. simpl.
    unfold set_add. rewrite decide_False by done.
    unfold set_delete. rewrite filter_app, filter_cons.
    rewrite decide_False by (intros H; by apply H).
    rewrite app_nil_r. by apply set_delete_absent.
  - simpl. unfold set_add. rewrite decide_False by done.
    unfold set_delete. rewrite filter_app, filter_cons.
    rewrite decide_False by (intros H; by apply H).
    rewrite app_nil_r. by apply set_delete_absent.
Qed.

(** X25 on the application as it starts. *)
Lemma X25_unmount_without_mount_and_after_mount_witness :
  App.unmount {| App.handleChange_fn := 1; App.handleSubmit_fn := 2 |}
              App.initial
  = App.initial.
Proof.
  destruct (X25_unmount_without_mount_and_after_mount
              {| App.handleChange_fn := 1; App.handleSubmit_fn := 2 |}
              App.initial) as (Hsame & _).
  - unfold change_listeners. simpl. rewrite lookup_empty.
    apply not_elem_of_nil.
  - apply not_elem_of_nil.
  - exact Hsame.
Defined.

End AppMore.

(* ===================================================================== *)
(** ** The order of the sequence and the order on the page                *)
(* ===================================================================== *)

Section DisplayOrder.
Import EventEmitter TodoListModel Props.

Lemma Forall2_compose {A B C} (P : A → B → Prop) (Q : B → C → Prop)
    (l : list A) (k : list B) (m : list C) :
  Forall2 P l k → Forall2 Q k m →
  Forall2 (λ x z, ∃ y, P x y ∧ Q y z) l m.
Proof.
  intros HP. revert m. induction HP as [|x y l k Hxy HP IH]; intros m HQ.
  - inversion HQ. constructor.
  - inversion HQ as [|y' z k' m' Hyz HQ']; subst.
    constructor; [by exists y | by apply IH].
Qed.

(** What [#handleChange] hands to [render] when every place of the
    sequence holds an entity of the store: one child for each place, in
    the order of the places, made from the entity of that place. *)
Lemma handleChange_children st :
  items_live st →
  ∃ el,
    (App.handleChange st).1 = Some el ∧
    Forall2 (λ l child,
               ∃ this, objs st !! l = Some this ∧
                       TodoItemView.createElement this = Some child)
            (item_refs st) (TodoListView.children el).
Proof.
  intros Hlive.
  assert (Forall2 (λ l this, objs st !! l = Some this)
            (item_refs st) (App.read_array st (items st))) as Hread.
  { apply omap_live_Forall2. intros l Hl.
    destruct (Hlive l Hl) as [i Hi]. unfold id_of in Hi.
    by destruct (objs st !! l). }
  unfold App.handleChange, TodoListView.createElement, getTodoItems.
  destruct (mapM TodoItemView.createElement (App.read_array st (items st)))
    as [kids|] eqn:Hkids.
  - apply mapM_Some in Hkids. eexists. cbn.
    split; [reflexivity |]. cbn [TodoListView.children].
    by apply (Forall2_compose _ _ _ _ _ Hread Hkids).
  - exfalso. apply eq_None_not_Some in Hkids. apply Hkids.
    apply mapM_is_Some. apply Forall_forall.
    intros todoItem _. apply createElement_is_Some.
Qed.

Lemma items_live_run_without_add acts st :
  forallb (λ a, negb (is_add a)) acts = true →
  items_live st → items_live (run acts st).
Proof.
  intros Hacts Hlive l Hl.
  destruct (run_without_add acts st Hacts) as [Hsub Hids].
  rewrite Hids. apply Hlive. by eapply elem_of_sublist.
Qed.

(** C6.  [updateTodo] leaves the sequence of entities as it was, and
    [deleteTodo] leaves the entities whose id differs from the given one,
    each as often as before and in the former order; neither changes an
    id.  So after any run of updates and deletions the sequence is a
    subsequence of the one before, and an addition puts the new entity at
    the end.  The page follows the sequence: after any run of updates and
    deletions, what [#handleChange] hands to [render] has one child for
    each place of the sequence, in the order of the places, and the k-th
    child is the element made from the entity at the k-th place. *)
Theorem C6_update_and_delete_keep_the_order (st : State) :
  (∀ i c, item_refs (updateTodo i c st) = item_refs st ∧
          (∀ l, id_of (updateTodo i c st) l = id_of st l)) ∧
  (∀ i, (item_refs (deleteTodo i st)
         = filter (λ todo, id_of st todo ≠ Some i) (item_refs st)) ∧
        (item_refs (deleteTodo i st) `sublist_of` item_refs st) ∧
        (∀ todo, todo ∈ item_refs (deleteTodo i st)
                 ↔ todo ∈ item_refs st ∧ id_of st todo ≠ Some i) ∧
        (∀ l, id_of (deleteTodo i st) l = id_of st l)) ∧
  (∀ acts, forallb (λ a, negb (is_add a)) acts = true →
           (item_refs (run acts st) `sublist_of` item_refs st) ∧
           (∀ l, id_of (run acts st) l = id_of st l)) ∧
  (items_allocated st →
   ∀ title,
     item_refs (App.handleAdd title st)
     = if decide (String.length title = 0) then item_refs st
       else item_refs st ++ [fresh (dom (objs st))]) ∧
  (items_live st →
   ∀ acts, forallb (λ a, negb (is_add a)) acts = true →
     ∃ el,
       (App.handleChange (run acts st)).1 = Some el ∧
       Forall2 (λ l child,
                  ∃ this, objs (run acts st) !! l = Some this ∧
                          TodoItemView.createElement this = Some child)
               (item_refs (run acts st)) (TodoListView.children el)).
Proof.
  split_and!.
  - intros i c. split; [apply item_refs_updateTodo |].
    intros l. apply id_of_updateTodo.
  - intros i. rewrite item_refs_deleteTodo. split_and!; [done | | | done].
    + apply sublist_filter.
    + intros todo. rewrite list_elem_of_filter. tauto.
  - intros acts. apply run_without_add.
  - intros Halloc title.
    by destruct (handleAdd_spec title st Halloc) as (_ & _ & _ & Hrefs & _).
  - intros Hlive acts Hacts. apply handleChange_children.
    by apply items_live_run_without_add.
Qed.

(** C6 on the container after the additions of [A] and [B], for the run
    that updates the entity of id 1 and deletes the entity of id 0: the
    page then shows the one entity that is left, completed. *)
Lemma C6_update_and_delete_keep_the_order_witness :
  ∃ el,
    (App.handleChange
       (run [UPDATE_TODO 1 true; DELETE_TODO 0]
            (run [ADD_TODO "A"; ADD_TODO "B"] App.initial_state))).1
    = Some el ∧
    Forall2 (λ l child,
               ∃ this,
                 objs (run [UPDATE_TODO 1 true; DELETE_TODO 0]
                         (run [ADD_TODO "A"; ADD_TODO "B"]
                              App.initial_state)) !! l = Some this ∧
                 TodoItemView.createElement this = Some child)
            (item_refs
               (run [UPDATE_TODO 1 true; DELETE_TODO 0]
                    (run [ADD_TODO "A"; ADD_TODO "B"] App.initial_state)))
            (TodoListView.children el).
Proof.
  destruct (run_steps [ADD_TODO "A"; ADD_TODO "B"] App.initial_state
              inv_initial ltac:(vm_compute; discriminate))
    as ((_ & _ & _ & Hlive & _) & _).
  destruct (C6_update_and_delete_keep_the_order
              (run [ADD_TODO "A"; ADD_TODO "B"] App.initial_state))
    as (_ & _ & _ & _ & Hpage).
  exact (Hpage Hlive [UPDATE_TODO 1 true; DELETE_TODO 0] eq_refl).
Defined.

End DisplayOrder.
